(** * Packed error codes of HSE: [src/util/src/hse_err.c]

    A shallow embedding of [merr_pack], [merr_file], [merr_strerror] and
    [merr_strinfo], and the properties of the encode / decode / format
    subsystem stated over it.

    Conventions.
    - A C integer of width [w] is a [Z]; every conversion and every
      arithmetic result is wrapped explicitly ([to_u64], [to_s64],
      [to_int]).  Signed overflow is undefined in C; the functions
      below wrap (two's complement), and a statement whose conclusion
      depends on such a value excludes the input: the only place is the
      negation of [INT_MIN] in [merr_pack].
    - A pointer is its address, a [Z] in [0, 2^64); [NULL] is [0].
      Pointer comparison is comparison of addresses.
    - A packed code [merr_t] is its 64-bit pattern, a [Z] in [0, 2^64);
      [(merr_t)-1] is [2^64 - 1].
    - Memory is a total map from addresses to bytes ([ascii]).
    - A character buffer is the C string it holds; a function that writes
      to a buffer returns the new content.
    - The constants of [hse_util/hse_err.h] (shifts, masks, [MERR_ALIGN],
      [EBUG]) are not part of this source file: they are the fields of a
      [merr_layout] the development is parameterised by.  [hse_layout]
      is the instance used to run the functions on concrete inputs. *)

From Stdlib Require Import ZArith Lia Bool List String Ascii DecimalString.
Import ListNotations.

Local Open Scope Z_scope.

(** ** Machine integers *)

Definition wrap (w x : Z) : Z := x mod 2 ^ w.
Definition swrap (w x : Z) : Z := (x + 2 ^ (w - 1)) mod 2 ^ w - 2 ^ (w - 1).

Definition to_u64 : Z -> Z := wrap 64.   (* (u64)x, (ulong)x, (size_t)x *)
Definition to_s64 : Z -> Z := swrap 64.  (* (s64)x, ptrdiff_t *)
Definition to_int : Z -> Z := swrap 32.  (* (int)x, (s32)x *)

Definition INT_MAX : Z := 2147483647.
Definition PATH_MAX : Z := 4096.         (* <limits.h> *)
Definition EINVAL : Z := 22.             (* <errno.h> *)
Definition ERANGE : Z := 34.
Definition NULL : Z := 0.
Definition ALL_ONES : Z := to_u64 (-1).  (* (merr_t)-1 *)

(** Modelled from the spec: the macro [IS_ALIGNED(val, align)], defined in
    a header that is not among the sources ("must be aligned to the
    platform word size", "a coarser alignment"): the mask test
    [((val) & ((align) - 1)) == 0]. *)
Definition IS_ALIGNED (val align : Z) : bool :=
  Z.land val (align - 1) =? 0.

(** ** The constants of [hse_util/hse_err.h] *)

Record merr_layout : Type := {
  MERR_ALIGN : Z;
  MERR_FILE_SHIFT : Z;
  MERR_LINE_SHIFT : Z;
  MERR_RSVD_SHIFT : Z;
  MERR_FILE_MASK : Z;
  MERR_LINE_MASK : Z;
  MERR_RSVD_MASK : Z;
  MERR_ERRNO_MASK : Z;
  EBUG : Z
}.

(** What the functions below rely on: the four fields tile the 64 bits
    (errno below the reserved bit, the line field above it, the file
    offset on top), the errno and the line fit an [int], a file offset
    times the alignment fits an [int], and [EBUG] is an errno of the
    field. *)
Record layout_ok (L : merr_layout) : Prop := {
  ok_rsvd_shift : 0 < MERR_RSVD_SHIFT L <= 31;
  ok_line_shift : MERR_RSVD_SHIFT L < MERR_LINE_SHIFT L;
  ok_file_shift : MERR_LINE_SHIFT L < MERR_FILE_SHIFT L < 64;
  ok_line_width : MERR_FILE_SHIFT L - MERR_LINE_SHIFT L <= 31;
  ok_file_width : 64 - MERR_FILE_SHIFT L <= 31;
  ok_file_mask : MERR_FILE_MASK L = 2 ^ 64 - 2 ^ MERR_FILE_SHIFT L;
  ok_line_mask : MERR_LINE_MASK L = 2 ^ MERR_FILE_SHIFT L - 2 ^ MERR_LINE_SHIFT L;
  ok_rsvd_mask : MERR_RSVD_MASK L = 2 ^ MERR_RSVD_SHIFT L;
  ok_errno_mask : MERR_ERRNO_MASK L = 2 ^ MERR_RSVD_SHIFT L - 1;
  ok_align : exists k, 0 <= k /\ MERR_ALIGN L = 2 ^ k
                       /\ k + (63 - MERR_FILE_SHIFT L) <= 31;
  ok_ebug : 0 < EBUG L <= MERR_ERRNO_MASK L
}.

(** The layout the functions are run with: 16 bits of signed file offset,
    16 bits of line number, one reserved bit, 31 bits of errno; the
    strings of section [hse_merr] are aligned to 64 bytes. *)
Definition hse_layout : merr_layout := {|
  MERR_ALIGN := 64;
  MERR_FILE_SHIFT := 48;
  MERR_LINE_SHIFT := 32;
  MERR_RSVD_SHIFT := 31;
  MERR_FILE_MASK := 0xffff000000000000;
  MERR_LINE_MASK := 0x0000ffff00000000;
  MERR_RSVD_MASK := 0x0000000080000000;
  MERR_ERRNO_MASK := 0x000000007fffffff;
  EBUG := 991
|}.

(** ** The process image: section [hse_merr] and memory *)

Record merr_env : Type := {
  hse_merr_bug0 : Z;        (* address of the literal "hse_merr_bug0u" *)
  hse_merr_bug1 : Z;
  hse_merr_bug2 : Z;
  hse_merr_bug3 : Z;
  hse_merr_base : Z;
  __start_hse_merr : Z;     (* &__start_hse_merr *)
  __stop_hse_merr : Z;      (* &__stop_hse_merr *)
  mem : Z -> ascii          (* the byte stored at an address *)
}.

Definition merr_t : Type := Z.

Section Encoder.

Variable L : merr_layout.
Variable E : merr_env.

(** The range test both functions share, as it is written:
    [!(file > (char * )&__start_hse_merr || file < (char * )&__stop_hse_merr)]. *)
Definition outside_libhse (file : Z) : bool :=
  negb ((file >? __start_hse_merr E) || (file <? __stop_hse_merr E)).

(** The label [finish] of [merr_pack]. *)
Definition merr_pack_finish (err errnum line : Z) : merr_t :=
  let err := Z.lor err (to_u64 (Z.shiftl 1 (MERR_RSVD_SHIFT L))) in
  let err := Z.lor err (Z.land (to_u64 (Z.shiftl (to_u64 line) (MERR_LINE_SHIFT L)))
                               (MERR_LINE_MASK L)) in
  let err := Z.lor err (Z.land (to_u64 errnum) (MERR_ERRNO_MASK L)) in
  err.

(** Lines 34-35: [if (errnum < 0) errnum = -errnum;].  For
    [errnum = INT_MIN] the negation overflows, which C leaves undefined;
    the value given here for it (the wrapped one, [INT_MIN]) is not
    what every compiler produces, and the statements about the fields of
    the code are made for [- 2 ^ 31 < errnum]. *)
Definition magnitude (errnum : Z) : Z :=
  if errnum <? 0 then to_int (- errnum) else errnum.

(** Lines 40-41: a pointer that is not word aligned is replaced by
    [hse_merr_bug0]; [sizeof(file)] is 8. *)
Definition merr_pack_word_checked (file : Z) : Z :=
  if negb (IS_ALIGNED (to_u64 file) 8) then hse_merr_bug0 E else file.

(** Lines 47-48: a pointer that is not [MERR_ALIGN] aligned is replaced
    by [hse_merr_bug1]. *)
Definition merr_pack_unit_checked (file : Z) : Z :=
  if negb (IS_ALIGNED (to_u64 file) (MERR_ALIGN L)) then hse_merr_bug1 E else file.

(** Line 50: [off = (file - hse_merr_base) / MERR_ALIGN]; the difference
    is a [ptrdiff_t] and C division truncates. *)
Definition merr_pack_off (file : Z) : Z :=
  Z.quot (to_s64 (file - hse_merr_base E)) (MERR_ALIGN L).

(** Lines 52-53: the offset is stored when it survives the round trip
    through the file field. *)
Definition merr_pack_file_field (off : Z) : Z :=
  let shifted := to_u64 (Z.shiftl (to_u64 off) (MERR_FILE_SHIFT L)) in
  if Z.shiftr (to_s64 shifted) (MERR_FILE_SHIFT L) =? off then shifted else 0.

Definition merr_pack (errnum file line : Z) : merr_t :=
  if errnum =? 0 then 0
  else
    let errnum := magnitude errnum in
    if file =? NULL then merr_pack_finish 0 errnum line
    else
      let file := merr_pack_word_checked file in
      if outside_libhse file then merr_pack_finish 0 errnum line
      else
        let file := merr_pack_unit_checked file in
        let off := merr_pack_off file in
        let err := merr_pack_file_field off in
        merr_pack_finish err errnum line.

(** Modelled from the spec: the inline accessors [merr_errno] and
    [merr_lineno] of [hse_util/hse_err.h], which is not among the sources
    ([errno_of(code) -> int]; "field widths/positions are fixed constants
    shared with all decoders"): [merr & MERR_ERRNO_MASK] and
    [(err & MERR_LINE_MASK) >> MERR_LINE_SHIFT], both returned as [int]. *)
Definition merr_errno (err : merr_t) : Z :=
  to_int (Z.land err (MERR_ERRNO_MASK L)).

Definition merr_lineno (err : merr_t) : Z :=
  to_int (Z.shiftr (Z.land err (MERR_LINE_MASK L)) (MERR_LINE_SHIFT L)).

End Encoder.

(** ** Strings in memory *)

Definition NUL : ascii := Ascii.zero.

Definition is_nul (c : ascii) : bool :=
  if ascii_dec c NUL then true else false.

Definition char_code (c : ascii) : Z := Z.of_N (N_of_ascii c).

(** [isprint] in the "C" locale. *)
Definition isprint (c : ascii) : bool :=
  (32 <=? char_code c) && (char_code c <=? 126).

Definition is_slash (c : ascii) : bool :=
  if ascii_dec c "/"%char then true else false.

Definition ptr_add (p i : Z) : Z := to_u64 (p + i).

(** The first [n] characters of a string, and what follows them. *)
Fixpoint str_take (n : nat) (s : string) : string :=
  match n, s with
  | S n', String c s' => String c (str_take n' s')
  | _, _ => EmptyString
  end.

Fixpoint str_drop (n : nat) (s : string) : string :=
  match n, s with
  | S n', String _ s' => str_drop n' s'
  | _, _ => s
  end.

Definition strlen (s : string) : Z := Z.of_nat (String.length s).

(** [hay] contains [needle] as a substring. *)
Definition contains (needle hay : string) : Prop :=
  exists pre post : string, hay = (pre ++ needle ++ post)%string.

(** Least index [j] in [[i, i + fuel)] at which [f] holds: [inr j]; or
    [inl (i + fuel)] when there is none.  The fuel is binary, so that a
    bound of 2^31 bytes costs nothing when the search stops early. *)
Fixpoint first_index (f : Z -> bool) (fuel : positive) (i : Z) : Z + Z :=
  match fuel with
  | xH => if f i then inr i else inl (i + 1)
  | xO q =>
      match first_index f q i with
      | inr j => inr j
      | inl i' => first_index f q i'
      end
  | xI q =>
      if f i then inr i
      else match first_index f q (i + 1) with
           | inr j => inr j
           | inl i' => first_index f q i'
           end
  end.

Section Memory.

Variable E : merr_env.

(** [strnlen(s, maxlen)]. *)
Fixpoint strnlen (s : Z) (maxlen : nat) : Z :=
  match maxlen with
  | O => 0
  | S n => if is_nul (mem E s) then 0 else 1 + strnlen (ptr_add s 1) n
  end.

(** The [n] bytes stored from address [p] on. *)
Fixpoint bytes_at (p : Z) (n : nat) : string :=
  match n with
  | O => EmptyString
  | S n' => String (mem E p) (bytes_at (ptr_add p 1) n')
  end.

(** The C string at [p], as [printf("%s")] reads it: up to the first NUL.
    A string with no NUL in its first [INT_MAX + 1] bytes cannot be
    printed ([snprintf] fails with a negative result): [None]. *)
Definition cstring_at (p : Z) : option string :=
  match first_index (fun i => is_nul (mem E (ptr_add p i))) (Z.to_pos (INT_MAX + 1)) 0 with
  | inr n => Some (bytes_at p (Z.to_nat n))
  | inl _ => None
  end.

End Memory.

(** ** libc and [hse_util/string.h] *)

(** [snprintf(buf, buf_sz, fmt, ...)] where [out] is the whole formatted
    text ([None]: an argument could not be formatted).  Returns the new
    content of [buf] and the [int] result: the length of the whole text,
    or a negative value when that length does not fit an [int]. *)
Definition snprintf (buf : string) (buf_sz : Z) (out : option string) : string * Z :=
  match out with
  | None => (buf, -1)
  | Some s =>
      if INT_MAX <? strlen s then (buf, -1)
      else ((if buf_sz =? 0 then buf else str_take (Z.to_nat (buf_sz - 1)) s),
            strlen s)
  end.

(** Modelled from the spec: [strlcpy] of [hse_util/string.h], whose source
    is not in this file.  It copies as much of [src] as fits in [sz] bytes
    with the terminator and returns the full length of [src] ("copy as
    much as fits into the caller buffer; report the full un-truncated
    required size"). *)
Definition strlcpy (dst src : string) (sz : Z) : string * Z :=
  ((if sz =? 0 then dst else str_take (Z.to_nat (sz - 1)) src), strlen src).

(** ["%d"] *)
Definition fmt_int (n : Z) : string := NilZero.string_of_int (Z.to_int n).

(** What the formatter calls outside this file: the platform's
    [strerror_r] (XSI flavour: [int] result, message in the buffer),
    [malloc], and the mpool formatter [mpool_strinfo].  A buffer is
    passed as the string it holds; [malloc] yields the indeterminate
    content of the new block, or [None] when it fails. *)
Record platform : Type := {
  strerror_r : Z -> string -> Z -> Z * string;
  malloc : Z -> option string;
  mpool_strinfo : merr_t -> string -> Z -> string
}.

Section Decoder.

Variable L : merr_layout.
Variable E : merr_env.
Variable P : platform.

(** The loop of [merr_file] (lines 90-96): [len] iterations are left,
    [file] is the cursor, [slash] the separators seen so far. *)
Fixpoint merr_file_scan (len : nat) (file slash : Z) : Z :=
  match len with
  | O => file
  | S len' =>
      if negb (is_nul (mem E file)) && negb (isprint (mem E file))
      then hse_merr_bug2 E
      else if is_slash (mem E (ptr_add file (-1)))
           then if to_int (slash + 1) >=? 2 then file
                else merr_file_scan len' (ptr_add file (-1)) (to_int (slash + 1))
           else merr_file_scan len' (ptr_add file (-1)) slash
  end.

(** [off] of [merr_file] (line 74), an [s32]. *)
Definition merr_file_off (err : merr_t) : Z :=
  to_int (Z.shiftr (to_s64 (Z.land err (MERR_FILE_MASK L))) (MERR_FILE_SHIFT L)).

(** [hse_merr_base + (off * MERR_ALIGN)] (line 78). *)
Definition merr_file_candidate (off : Z) : Z :=
  ptr_add (hse_merr_base E) (to_int (off * MERR_ALIGN L)).

(** [file] after the range test of lines 80-82. *)
Definition merr_file_checked (file : Z) : Z :=
  if outside_libhse E file then hse_merr_bug3 E else file.

Definition merr_file (err : merr_t) : Z :=
  if (err =? 0) || (err =? ALL_ONES) then NULL
  else
    let off := merr_file_off err in
    if off =? 0 then NULL
    else
      let file := merr_file_candidate off in
      let file := merr_file_checked file in
      let len := strnlen E file (Z.to_nat PATH_MAX) in
      let file := ptr_add file len in
      merr_file_scan (Z.to_nat len) file 0.

(** [merr_strerror]: the new content of [buf] and the size returned.
    [None] is the failed [assert(rc == ERANGE)]. *)
Definition merr_strerror (err : merr_t) (buf : string) (buf_sz : Z)
  : option (string * Z) :=
  let errnum := merr_errno L err in
  let errbuf_sz := 1000 in
  if errnum =? EBUG L then Some (strlcpy buf "HSE software bug" buf_sz)
  else
    let '(rc, buf) := strerror_r P errnum buf buf_sz in
    if rc =? 0 then Some (buf, to_u64 (1 + strlen buf))
    else if rc =? EINVAL then
      let '(buf, n) := strlcpy buf "<invalid error code>" buf_sz in
      Some (buf, to_u64 (1 + n))
    else if negb (rc =? ERANGE) then None
    else
      match malloc P errbuf_sz with
      | None => Some (strlcpy buf "<error formating error message>" buf_sz)
      | Some errbuf =>
          let '(_, errbuf) := strerror_r P errnum errbuf errbuf_sz in
          let '(buf, n) := strlcpy buf errbuf buf_sz in
          Some (buf, to_u64 (1 + n))
      end.

(** The text ["%s:%d: "] is applied to. *)
Definition location_prefix (file line : Z) : option string :=
  match cstring_at E file with
  | Some f => Some (f ++ ":" ++ fmt_int line ++ ": ")%string
  | None => None
  end.

(** What [merr_strinfo] leaves behind: the content of [buf] and the value
    its [if (need_sz) *need_sz = ...] statements assign ([None]: no such
    statement is reached).  The value reaches the caller when [need_sz]
    is not [NULL]: see [need_sz_stored]. *)
Record strinfo : Type := {
  out_buf : string;
  out_need_sz : option Z
}.

(** Lines 152-153: the location prefix, when there is a location.  The
    new content of [buf] and [sz]. *)
Definition merr_strinfo_prefix (err : merr_t) (buf : string) (buf_sz : Z)
  : string * Z :=
  if merr_file err =? NULL then (buf, 0)
  else snprintf buf buf_sz
         (location_prefix (merr_file err) (merr_lineno L err)).

Definition merr_strinfo (err : merr_t) (buf : string) (buf_sz : Z)
  : option strinfo :=
  if err =? 0 then
    Some {| out_buf := fst (snprintf buf buf_sz (Some "success"%string));
            out_need_sz := None |}
  else if Z.land err (MERR_RSVD_MASK L) =? 0 then
    Some {| out_buf := mpool_strinfo P err buf buf_sz; out_need_sz := None |}
  else
    let '(buf, sz) := merr_strinfo_prefix err buf buf_sz in
    if sz <? 0 then
      let '(buf, tmp_sz) := strlcpy buf "<error formating error message>" buf_sz in
      Some {| out_buf := buf; out_need_sz := Some tmp_sz |}
    else if to_u64 sz >=? buf_sz then
      Some {| out_buf := buf; out_need_sz := Some (to_u64 (to_int (sz + 200))) |}
    else
      let off := sz in
      match merr_strerror err (str_drop (Z.to_nat off) buf) (to_u64 (buf_sz - off)) with
      | None => None
      | Some (tail, ret) =>
          let sz := to_int ret in
          Some {| out_buf := (str_take (Z.to_nat off) buf ++ tail)%string;
                  out_need_sz := Some (to_u64 (to_int (off + sz))) |}
      end.

End Decoder.

(** ** A concrete process image

    Section [hse_merr] laid out as the linker does for this file: the
    four sentinel literals and [hse_merr_base], 64 bytes apart, followed
    by the path literal of a translation unit and two strings with a
    byte that is not printable, the first at index 0, the second at
    index 1. *)

Fixpoint table_byte (tbl : list (Z * string)) (a : Z) : ascii :=
  match tbl with
  | [] => NUL
  | (p, s) :: tbl' =>
      if (p <=? a) && (a <? p + strlen s)
      then match String.get (Z.to_nat (a - p)) s with
           | Some c => c
           | None => NUL
           end
      else table_byte tbl' a
  end.

Definition demo_table : list (Z * string) :=
  [ (0x600000, "hse_merr_bug0u"); (0x600040, "hse_merr_bug1u");
    (0x600080, "hse_merr_bug2u"); (0x6000c0, "hse_merr_bug3u");
    (0x600100, "hse_merr_baseu");
    (0x600140, "/build/hse/src/util/src/hse_err.c");
    (0x600180, String (ascii_of_nat 1) "bc");
    (0x6001c0, String "b" (String (ascii_of_nat 1) "c")) ]%string.

Definition demo_env : merr_env := {|
  hse_merr_bug0 := 0x600000;
  hse_merr_bug1 := 0x600040;
  hse_merr_bug2 := 0x600080;
  hse_merr_bug3 := 0x6000c0;
  hse_merr_base := 0x600100;
  __start_hse_merr := 0x600000;
  __stop_hse_merr := 0x600200;
  mem := table_byte demo_table
|}.

(** A platform that knows errno 2 only. *)
Definition demo_platform : platform := {|
  strerror_r := fun errnum buf buflen =>
    if errnum =? 2 then
      let msg := "No such file or directory"%string in
      ((if buflen <=? strlen msg then ERANGE else 0),
       (if buflen =? 0 then buf else str_take (Z.to_nat (buflen - 1)) msg))
    else (EINVAL, buf);
  malloc := fun _ => Some EmptyString;
  mpool_strinfo := fun _ buf _ => buf
|}.

(** The fourth argument of [merr_strinfo]: every assignment through
    [need_sz] is guarded by [if (need_sz)] (lines 157, 168, 175), so what
    is stored is the value of [out_need_sz] for a pointer that is not
    [NULL], and nothing for [NULL]. *)
Definition need_sz_stored (need_sz : Z) (r : strinfo) : option Z :=
  if need_sz =? NULL then None else out_need_sz r.

(** ** Vocabulary of the statements *)

(** A located code written as the sum of its fields: file field [k],
    line field [l], the reserved bit, errno field [e]. *)
Definition fields (L : merr_layout) (k l e : Z) : Z :=
  k * 2 ^ MERR_FILE_SHIFT L + l * 2 ^ MERR_LINE_SHIFT L
  + 2 ^ MERR_RSVD_SHIFT L + e.

(** The signed value of a file field [k]. *)
Definition signed_field (L : merr_layout) (k : Z) : Z :=
  if k <? 2 ^ (63 - MERR_FILE_SHIFT L) then k
  else k - 2 ^ (64 - MERR_FILE_SHIFT L).

(** The separators of a string, and the bytes [merr_file] refuses:
    neither NUL nor printable. *)
Fixpoint slashes (s : string) : nat :=
  match s with
  | EmptyString => 0
  | String c s' => (if is_slash c then 1 else 0) + slashes s'
  end.

Definition unprintable (c : ascii) : bool :=
  negb (is_nul c) && negb (isprint c).

(** How far from [hse_merr_base] an offset of the file field can point. *)
Definition reach (L : merr_layout) : Z :=
  2 ^ (63 - MERR_FILE_SHIFT L) * MERR_ALIGN L.

(** The image is laid out so that pointer arithmetic on the section stays
    inside the address space: the sentinels are objects (not at address
    zero) and no offset of the file field reaches address zero or wraps
    around, even after a string of [PATH_MAX] bytes. *)
Record env_ok (L : merr_layout) (E : merr_env) : Prop := {
  ok_bug2 : 0 < hse_merr_bug2 E < 2 ^ 64;
  ok_bug3 : 0 < hse_merr_bug3 E /\ hse_merr_bug3 E + PATH_MAX < 2 ^ 64;
  ok_base_low : reach L < hse_merr_base E;
  ok_base_high : hse_merr_base E + reach L + PATH_MAX < 2 ^ 64
}.

(** [file] is an entry of the table: it lies [o] alignment units from
    [hse_merr_base], with [o] in the range of the signed file field, it
    passes both alignment tests of [merr_pack], and the range test does
    not reject it. *)
Record table_entry (L : merr_layout) (E : merr_env) (file o : Z) : Prop := {
  entry_addr : file = hse_merr_base E + o * MERR_ALIGN L;
  entry_ptr : 0 < file < 2 ^ 64;
  entry_word : IS_ALIGNED file 8 = true;
  entry_unit : IS_ALIGNED file (MERR_ALIGN L) = true;
  entry_inside : outside_libhse E file = false;
  entry_off : - 2 ^ (63 - MERR_FILE_SHIFT L) <= o < 2 ^ (63 - MERR_FILE_SHIFT L)
}.

(** The contract of the XSI [strerror_r] over the platform's table of
    messages [msgs]: for a known errno the message is copied as far as it
    fits, and the result is [ERANGE] when it does not fit with its
    terminator, [0] otherwise; for an unknown errno the result is
    [EINVAL]. *)
Record xsi_platform (P : platform) (msgs : Z -> option string) : Prop := {
  xsi_known : forall errnum msg buf buflen,
    msgs errnum = Some msg ->
    strerror_r P errnum buf buflen
    = ((if buflen <=? strlen msg then ERANGE else 0),
       (if buflen =? 0 then buf else str_take (Z.to_nat (buflen - 1)) msg));
  xsi_unknown : forall errnum buf buflen,
    msgs errnum = None -> fst (strerror_r P errnum buf buflen) = EINVAL
}.

(** [demo_platform] when no memory is left. *)
Definition demo_platform_oom : platform := {|
  strerror_r := strerror_r demo_platform;
  malloc := fun _ => None;
  mpool_strinfo := mpool_strinfo demo_platform
|}.

(** The messages [demo_platform] knows. *)
Definition demo_msgs (errnum : Z) : option string :=
  if errnum =? 2 then Some "No such file or directory"%string else None.

(** An image filled with the letter [a]: no string in it ends. *)
Definition endless_env : merr_env := {|
  hse_merr_bug0 := 0x600000;
  hse_merr_bug1 := 0x600040;
  hse_merr_bug2 := 0x600080;
  hse_merr_bug3 := 0x6000c0;
  hse_merr_base := 0x600100;
  __start_hse_merr := 0x600000;
  __stop_hse_merr := 0x600200;
  mem := fun _ => "a"%char
|}.

(** ** Arithmetic of bit fields *)

Lemma pow2_pos (n : Z) : 0 <= n -> 0 < 2 ^ n.
Proof. intros; apply Z.pow_pos_nonneg; lia. Qed.

Lemma pow2_split (a b : Z) : 0 <= a -> 0 <= b -> 2 ^ (a + b) = 2 ^ a * 2 ^ b.
Proof. intros; apply Z.pow_add_r; assumption. Qed.

Lemma split_div (hi lo p : Z) : 0 <= lo < p -> (hi * p + lo) / p = hi.
Proof.
  intros H. symmetry. apply Z.div_unique with (r := lo); [left; lia | lia].
Qed.

Lemma split_mod (hi lo p : Z) : 0 <= lo < p -> (hi * p + lo) mod p = lo.
Proof.
  intros H. symmetry. apply Z.mod_unique with (q := hi); [left; lia | lia].
Qed.

(** A mask of [w] ones shifted left by [s] selects the field of width [w]
    at position [s]. *)
Lemma field_land (x w s : Z) :
  0 <= w -> 0 <= s ->
  Z.land x (2 ^ (w + s) - 2 ^ s) = (x / 2 ^ s) mod 2 ^ w * 2 ^ s.
Proof.
  intros Hw Hs.
  replace (2 ^ (w + s) - 2 ^ s) with (Z.shiftl (Z.ones w) s).
  2:{ rewrite Z.shiftl_mul_pow2, Z.ones_equiv, pow2_split by assumption. lia. }
  rewrite <- Z.shiftr_div_pow2, <- Z.land_ones, <- Z.shiftl_mul_pow2 by assumption.
  apply Z.bits_inj'; intros n Hn.
  rewrite Z.land_spec, !Z.shiftl_spec, Z.land_spec by assumption.
  destruct (Z.ltb_spec n s) as [Hlt | Hge].
  - rewrite (Z.testbit_neg_r _ (n - s)) by lia.
    rewrite (Z.testbit_neg_r _ (n - s)) by lia.
    rewrite andb_false_r. reflexivity.
  - rewrite Z.shiftr_spec by lia.
    replace (n - s + s) with n by lia. reflexivity.
Qed.

(** Fields that do not overlap are added by [Z.lor]. *)
Lemma lor_add_fields (a b s : Z) :
  0 <= s -> 0 <= b < 2 ^ s -> Z.lor (a * 2 ^ s) b = a * 2 ^ s + b.
Proof.
  intros Hs Hb.
  rewrite <- Z.lxor_lor, <- Z.add_nocarry_lxor; try reflexivity.
  all: apply Z.bits_inj'; intros n Hn;
    rewrite Z.land_spec, Z.bits_0;
    destruct (Z.ltb_spec n s) as [Hlt | Hge];
    [ rewrite Z.mul_pow2_bits_low by assumption; reflexivity
    | rewrite <- (Z.mod_small b (2 ^ s)) by assumption;
      rewrite (Z.mod_pow2_bits_high b s n) by lia;
      apply andb_false_r ].
Qed.

Lemma to_u64_small (x : Z) : 0 <= x < 2 ^ 64 -> to_u64 x = x.
Proof. intros; apply Z.mod_small; assumption. Qed.

Lemma swrap_small (w x : Z) :
  0 < w -> - 2 ^ (w - 1) <= x < 2 ^ (w - 1) -> swrap w x = x.
Proof.
  intros Hw Hx. unfold swrap.
  assert (2 ^ w = 2 * 2 ^ (w - 1)) as Hp.
  { replace w with (1 + (w - 1)) at 1 by lia. rewrite pow2_split by lia. reflexivity. }
  rewrite Z.mod_small by lia. lia.
Qed.

Lemma to_int_small (x : Z) : - 2 ^ 31 <= x < 2 ^ 31 -> to_int x = x.
Proof. intros; apply swrap_small; [lia | assumption]. Qed.

Lemma to_s64_small (x : Z) : - 2 ^ 63 <= x < 2 ^ 63 -> to_s64 x = x.
Proof. intros; apply swrap_small; [lia | assumption]. Qed.

(** A wrapped value agrees with the original modulo any smaller power of
    two. *)
Lemma wrap_mod (w n x : Z) : 0 <= n <= w -> wrap w x mod 2 ^ n = x mod 2 ^ n.
Proof.
  intros H. unfold wrap.
  apply Z.mod_mod_divide.
  exists (2 ^ (w - n)). rewrite <- pow2_split by lia. f_equal; lia.
Qed.

Lemma swrap_mod (w n x : Z) : 0 <= n < w -> swrap w x mod 2 ^ n = x mod 2 ^ n.
Proof.
  intros H. unfold swrap.
  assert (2 ^ (w - 1) = 2 ^ (w - 1 - n) * 2 ^ n) as Hp.
  { rewrite <- pow2_split by lia. f_equal; lia. }
  rewrite Hp at 2.
  unfold Z.sub at 1. rewrite <- Z.mul_opp_l, Z_mod_plus_full.
  fold (wrap w (x + 2 ^ (w - 1))). rewrite wrap_mod by lia.
  rewrite Hp, Z_mod_plus_full. reflexivity.
Qed.

(** [(u64)x << s], wrapped, keeps the low [64 - s] bits of [x]. *)
Lemma shl_u64 (x s : Z) :
  0 <= s <= 64 ->
  to_u64 (Z.shiftl (to_u64 x) s) = x mod 2 ^ (64 - s) * 2 ^ s.
Proof.
  intros Hs. unfold to_u64 at 1. unfold wrap.
  rewrite Z.shiftl_mul_pow2 by lia.
  replace (2 ^ 64) with (2 ^ (64 - s) * 2 ^ s) at 1
    by (rewrite <- pow2_split by lia; f_equal; lia).
  rewrite Z.mul_mod_distr_r by (apply Z.pow_nonzero; lia).
  f_equal. apply wrap_mod. lia.
Qed.

Section LayoutFacts.

Variable L : merr_layout.
Hypothesis HL : layout_ok L.

Local Abbreviation FS := (MERR_FILE_SHIFT L).
Local Abbreviation LS := (MERR_LINE_SHIFT L).
Local Abbreviation RS := (MERR_RSVD_SHIFT L).

Lemma layout_shifts : 0 < RS /\ RS <= 31 /\ RS < LS /\ LS < FS /\ FS < 64.
Proof. destruct HL; lia. Qed.

Lemma rsvd_part : to_u64 (Z.shiftl 1 RS) = 2 ^ RS.
Proof.
  pose proof layout_shifts.
  rewrite Z.shiftl_mul_pow2, Z.mul_1_l by lia.
  apply to_u64_small. split; [apply Z.pow_nonneg; lia|].
  apply Z.pow_lt_mono_r; lia.
Qed.

Lemma line_part (l : Z) :
  Z.land (to_u64 (Z.shiftl (to_u64 l) LS)) (MERR_LINE_MASK L)
  = l mod 2 ^ (FS - LS) * 2 ^ LS.
Proof.
  pose proof layout_shifts.
  rewrite (ok_line_mask L HL).
  replace FS with ((FS - LS) + LS) at 1 by lia.
  rewrite field_land by lia.
  rewrite shl_u64 by lia.
  rewrite Z.div_mul by (apply Z.pow_nonzero; lia).
  fold (wrap (64 - LS) l). rewrite wrap_mod by lia. reflexivity.
Qed.

Lemma errno_part (e : Z) :
  Z.land (to_u64 e) (MERR_ERRNO_MASK L) = e mod 2 ^ RS.
Proof.
  pose proof layout_shifts.
  rewrite (ok_errno_mask L HL).
  replace (2 ^ RS - 1) with (Z.ones RS) by (rewrite Z.ones_equiv; lia).
  rewrite Z.land_ones by lia.
  apply wrap_mod. lia.
Qed.

Lemma finish_fields (k errnum line : Z) :
  0 <= k < 2 ^ (64 - FS) ->
  merr_pack_finish L (k * 2 ^ FS) errnum line
  = fields L k (line mod 2 ^ (FS - LS)) (errnum mod 2 ^ RS).
Proof.
  intros Hk. pose proof layout_shifts as Hs.
  unfold merr_pack_finish, fields.
  rewrite rsvd_part, line_part, errno_part.
  set (lf := line mod 2 ^ (FS - LS)). set (ef := errnum mod 2 ^ RS).
  assert (0 <= lf < 2 ^ (FS - LS)) as Hlf by (apply Z.mod_pos_bound, pow2_pos; lia).
  assert (0 <= ef < 2 ^ RS) as Hef by (apply Z.mod_pos_bound, pow2_pos; lia).
  assert (2 ^ LS = 2 ^ (LS - RS - 1) * 2 * 2 ^ RS) as HpL.
  { replace LS with ((LS - RS - 1) + 1 + RS) at 1 by lia.
    rewrite !pow2_split by lia. reflexivity. }
  assert (2 ^ FS = 2 ^ (FS - LS) * 2 ^ LS) as HpF.
  { rewrite <- pow2_split by lia. f_equal; lia. }
  assert (0 < 2 ^ (LS - RS - 1)) by (apply pow2_pos; lia).
  assert (0 < 2 ^ RS) by (apply pow2_pos; lia).
  assert (0 < 2 ^ LS) by (apply pow2_pos; lia).
  assert (forall a r l e, Z.lor (Z.lor (Z.lor a r) l) e
                          = Z.lor a (Z.lor l (Z.lor r e))) as Hre.
  { intros. apply Z.bits_inj'; intros n _. rewrite !Z.lor_spec.
    destruct (Z.testbit a n), (Z.testbit r n), (Z.testbit l n); reflexivity. }
  rewrite Hre.
  rewrite <- (Z.mul_1_l (2 ^ RS)) at 1.
  rewrite (lor_add_fields 1 ef RS) by lia.
  rewrite (lor_add_fields lf _ LS) by nia.
  rewrite (lor_add_fields k _ FS) by nia.
  lia.
Qed.

Section Fields.

Variables k lf ef : Z.
Hypothesis Hk : 0 <= k < 2 ^ (64 - FS).
Hypothesis Hlf : 0 <= lf < 2 ^ (FS - LS).
Hypothesis Hef : 0 <= ef < 2 ^ RS.

Local Abbreviation c := (fields L k lf ef).

Lemma fields_low : 0 <= 2 ^ RS + ef < 2 ^ LS.
Proof.
  pose proof layout_shifts as Hs.
  assert (2 ^ LS = 2 ^ (LS - RS - 1) * 2 * 2 ^ RS) as HpL.
  { replace LS with ((LS - RS - 1) + 1 + RS) at 1 by lia.
    rewrite !pow2_split by lia. reflexivity. }
  assert (0 < 2 ^ (LS - RS - 1)) by (apply pow2_pos; lia).
  assert (0 < 2 ^ RS) by (apply pow2_pos; lia).
  nia.
Qed.

Lemma fields_mid : 0 <= lf * 2 ^ LS + 2 ^ RS + ef < 2 ^ FS.
Proof.
  pose proof layout_shifts as Hs. pose proof fields_low.
  assert (2 ^ FS = 2 ^ (FS - LS) * 2 ^ LS) as HpF.
  { rewrite <- pow2_split by lia. f_equal; lia. }
  assert (0 < 2 ^ LS) by (apply pow2_pos; lia).
  nia.
Qed.

Lemma fields_range : 0 < c < 2 ^ 64.
Proof.
  pose proof layout_shifts as Hs. pose proof fields_low. pose proof fields_mid.
  assert (2 ^ 64 = 2 ^ (64 - FS) * 2 ^ FS) as HpT.
  { rewrite <- pow2_split by lia. f_equal; lia. }
  assert (0 < 2 ^ FS) by (apply pow2_pos; lia).
  assert (0 < 2 ^ RS) by (apply pow2_pos; lia).
  unfold fields. nia.
Qed.

Lemma fields_errno_bits : Z.land c (MERR_ERRNO_MASK L) = ef.
Proof.
  pose proof layout_shifts as Hs.
  rewrite (ok_errno_mask L HL).
  replace (2 ^ RS - 1) with (Z.ones RS) by (rewrite Z.ones_equiv; lia).
  rewrite Z.land_ones by lia.
  unfold fields.
  replace (k * 2 ^ FS + lf * 2 ^ LS + 2 ^ RS + ef)
    with ((k * 2 ^ (FS - RS) + lf * 2 ^ (LS - RS) + 1) * 2 ^ RS + ef).
  - apply split_mod; assumption.
  - replace FS with ((FS - RS) + RS) at 2 by lia.
    replace LS with ((LS - RS) + RS) at 2 by lia.
    rewrite !pow2_split by lia. ring.
Qed.

Lemma fields_rsvd_bit : Z.land c (MERR_RSVD_MASK L) = MERR_RSVD_MASK L.
Proof.
  pose proof layout_shifts as Hs.
  rewrite (ok_rsvd_mask L HL).
  replace (2 ^ RS) with (2 ^ (1 + RS) - 2 ^ RS) at 1
    by (rewrite pow2_split by lia; lia).
  rewrite field_land by lia.
  unfold fields.
  replace (k * 2 ^ FS + lf * 2 ^ LS + 2 ^ RS + ef)
    with ((k * 2 ^ (FS - RS) + lf * 2 ^ (LS - RS) + 1) * 2 ^ RS + ef).
  2:{ replace FS with ((FS - RS) + RS) at 2 by lia.
      replace LS with ((LS - RS) + RS) at 2 by lia.
      rewrite !pow2_split by lia. ring. }
  rewrite split_div by assumption.
  replace (k * 2 ^ (FS - RS) + lf * 2 ^ (LS - RS) + 1)
    with ((k * 2 ^ (FS - RS - 1) + lf * 2 ^ (LS - RS - 1)) * 2 ^ 1 + 1).
  2:{ replace (FS - RS) with ((FS - RS - 1) + 1) by lia.
      replace (LS - RS) with ((LS - RS - 1) + 1) by lia.
      rewrite !pow2_split by lia.
      replace (FS - RS - 1 + 1 - 1) with (FS - RS - 1) by lia.
      replace (LS - RS - 1 + 1 - 1) with (LS - RS - 1) by lia.
      ring. }
  rewrite split_mod by lia. lia.
Qed.

Lemma fields_line_bits :
  Z.shiftr (Z.land c (MERR_LINE_MASK L)) LS = lf.
Proof.
  pose proof layout_shifts as Hs. pose proof fields_low.
  rewrite (ok_line_mask L HL).
  replace FS with ((FS - LS) + LS) at 1 by lia.
  rewrite field_land by lia.
  rewrite Z.shiftr_div_pow2 by lia.
  rewrite Z.div_mul by (apply Z.pow_nonzero; lia).
  unfold fields.
  replace (k * 2 ^ FS + lf * 2 ^ LS + 2 ^ RS + ef)
    with ((k * 2 ^ (FS - LS) + lf) * 2 ^ LS + (2 ^ RS + ef)).
  2:{ replace FS with ((FS - LS) + LS) at 2 by lia.
      rewrite !pow2_split by lia. ring. }
  rewrite split_div by assumption.
  apply split_mod; assumption.
Qed.

Lemma fields_file_bits : Z.land c (MERR_FILE_MASK L) = k * 2 ^ FS.
Proof.
  pose proof layout_shifts as Hs. pose proof fields_mid.
  rewrite (ok_file_mask L HL).
  replace 64 with ((64 - FS) + FS) at 1 by lia.
  rewrite field_land by lia.
  unfold fields.
  replace (k * 2 ^ FS + lf * 2 ^ LS + 2 ^ RS + ef)
    with (k * 2 ^ FS + (lf * 2 ^ LS + 2 ^ RS + ef)) by ring.
  rewrite split_div by lia.
  rewrite Z.mod_small by assumption. reflexivity.
Qed.

Lemma fields_errno : merr_errno L c = ef.
Proof.
  pose proof layout_shifts as Hs.
  unfold merr_errno. rewrite fields_errno_bits.
  apply to_int_small.
  assert (2 ^ RS <= 2 ^ 31) by (apply Z.pow_le_mono_r; lia). lia.
Qed.

Lemma fields_lineno : merr_lineno L c = lf.
Proof.
  pose proof layout_shifts as Hs.
  unfold merr_lineno. rewrite fields_line_bits.
  apply to_int_small.
  assert (2 ^ (FS - LS) <= 2 ^ 31)
    by (apply Z.pow_le_mono_r; [lia | apply (ok_line_width L HL)]).
  lia.
Qed.

End Fields.

End LayoutFacts.

Section PackFacts.

Variable L : merr_layout.
Hypothesis HL : layout_ok L.
Variable E : merr_env.

Local Abbreviation FS := (MERR_FILE_SHIFT L).
Local Abbreviation LS := (MERR_LINE_SHIFT L).
Local Abbreviation RS := (MERR_RSVD_SHIFT L).

Lemma shiftr_signed_field (k : Z) :
  0 <= k < 2 ^ (64 - FS) ->
  Z.shiftr (to_s64 (k * 2 ^ FS)) FS = signed_field L k.
Proof.
  intros Hk. pose proof (layout_shifts L HL) as Hs.
  assert (2 ^ 63 = 2 ^ (63 - FS) * 2 ^ FS) as H63.
  { rewrite <- pow2_split by lia. f_equal; lia. }
  assert (2 ^ 64 = 2 ^ (64 - FS) * 2 ^ FS) as H64.
  { rewrite <- pow2_split by lia. f_equal; lia. }
  assert (2 ^ (64 - FS) = 2 * 2 ^ (63 - FS)) as Htop.
  { replace (64 - FS) with (1 + (63 - FS)) by lia. rewrite pow2_split by lia. reflexivity. }
  assert (0 < 2 ^ FS) by (apply pow2_pos; lia).
  assert (0 < 2 ^ (63 - FS)) by (apply pow2_pos; lia).
  rewrite Z.shiftr_div_pow2 by lia.
  unfold signed_field. destruct (Z.ltb_spec k (2 ^ (63 - FS))) as [Hlo | Hhi].
  - rewrite to_s64_small by nia. apply Z.div_mul. lia.
  - replace (to_s64 (k * 2 ^ FS)) with ((k - 2 ^ (64 - FS)) * 2 ^ FS).
    + apply Z.div_mul. lia.
    + unfold to_s64, swrap. change (64 - 1) with 63.
      replace (k * 2 ^ FS + 2 ^ 63) with ((k * 2 ^ FS - 2 ^ 63) + 1 * 2 ^ 64) by lia.
      rewrite Z_mod_plus_full, Z.mod_small by nia. nia.
Qed.

Lemma signed_field_range (k : Z) :
  0 <= k < 2 ^ (64 - FS) ->
  - 2 ^ (63 - FS) <= signed_field L k < 2 ^ (63 - FS).
Proof.
  intros Hk. pose proof (layout_shifts L HL) as Hs.
  assert (2 ^ (64 - FS) = 2 * 2 ^ (63 - FS)) as Htop.
  { replace (64 - FS) with (1 + (63 - FS)) by lia. rewrite pow2_split by lia. reflexivity. }
  unfold signed_field. destruct (Z.ltb_spec k (2 ^ (63 - FS))); lia.
Qed.

(** The file field [merr_pack] stores is a multiple of [2 ^ FS]; it is
    all ones only for the offset [-1], and when it is not empty, it reads
    back as the offset. *)
Lemma file_field_shape (off : Z) :
  exists k, 0 <= k < 2 ^ (64 - FS)
    /\ merr_pack_file_field L off = k * 2 ^ FS
    /\ (k <> 0 -> signed_field L k = off).
Proof.
  pose proof (layout_shifts L HL) as Hs.
  unfold merr_pack_file_field.
  rewrite shl_u64 by lia.
  set (k0 := off mod 2 ^ (64 - FS)).
  assert (0 <= k0 < 2 ^ (64 - FS)) as Hk0 by (apply Z.mod_pos_bound, pow2_pos; lia).
  rewrite shiftr_signed_field by assumption.
  destruct (Z.eqb_spec (signed_field L k0) off) as [Heq | Hne].
  - exists k0. auto.
  - exists 0. assert (0 < 2 ^ (64 - FS)) by (apply pow2_pos; lia).
    repeat split; try lia.
Qed.

Lemma magnitude_mod (errnum : Z) :
  magnitude errnum mod 2 ^ RS = Z.abs errnum mod 2 ^ RS.
Proof.
  pose proof (layout_shifts L HL) as Hs.
  unfold magnitude. destruct (Z.ltb_spec errnum 0).
  - unfold to_int. rewrite swrap_mod by lia. f_equal; lia.
  - f_equal; lia.
Qed.

(** Every nonzero errno is packed into the four fields. *)
Lemma merr_pack_shape (errnum file line : Z) :
  errnum <> 0 ->
  exists k, 0 <= k < 2 ^ (64 - FS)
    /\ merr_pack L E errnum file line
       = fields L k (line mod 2 ^ (FS - LS)) (Z.abs errnum mod 2 ^ RS)
    /\ (file = NULL -> k = 0)
    /\ (k <> 0 ->
        signed_field L k
        = merr_pack_off L E (merr_pack_unit_checked L E (merr_pack_word_checked E file))).
Proof.
  intros He. pose proof (layout_shifts L HL) as Hs.
  assert (0 < 2 ^ (64 - FS)) by (apply pow2_pos; lia).
  unfold merr_pack. destruct (Z.eqb_spec errnum 0) as [|_]; [contradiction|].
  fold (magnitude errnum). rewrite <- magnitude_mod.
  assert (merr_pack_finish L 0 (magnitude errnum) line
          = fields L 0 (line mod 2 ^ (FS - LS)) (magnitude errnum mod 2 ^ RS)) as H0.
  { apply (finish_fields L HL 0). lia. }
  destruct (Z.eqb_spec file NULL) as [Hnull | Hfile].
  { exists 0. split; [lia | split; [exact H0 | split; [reflexivity | congruence]]]. }
  destruct (outside_libhse E _).
  { exists 0. split; [lia | split; [exact H0 | split; [reflexivity | congruence]]]. }
  destruct (file_field_shape
              (merr_pack_off L E (merr_pack_unit_checked L E (merr_pack_word_checked E file))))
    as (k & Hk & Hfield & Hoff).
  exists k. rewrite Hfield.
  split; [exact Hk | split; [apply finish_fields; assumption | split]].
  - intros; contradiction.
  - exact Hoff.
Qed.

End PackFacts.

(** ** The concrete layout and image are well formed *)

Lemma hse_layout_ok : layout_ok hse_layout.
Proof.
  constructor; cbn; try lia; try reflexivity.
  exists 6. cbn. lia.
Qed.

Lemma demo_env_ok : env_ok hse_layout demo_env.
Proof. constructor; vm_compute; repeat split; try reflexivity; discriminate. Qed.

(** ** The encoder *)

(** C10: an errno of zero is packed as zero, whatever the file identifier
    and the line are. *)
Theorem merr_pack_zero (L : merr_layout) (E : merr_env) (file line : Z) :
  merr_pack L E 0 file line = 0.
Proof. reflexivity. Qed.

(** C2: when [__start_hse_merr < __stop_hse_merr], the range test is false
    for every pointer: [merr_pack] always goes on to compute the offset of
    a file identifier, and [merr_file] always keeps its candidate
    address. *)
Theorem range_test_never_fires (L : merr_layout) (E : merr_env) :
  __start_hse_merr E < __stop_hse_merr E ->
  (forall file, outside_libhse E file = false)
  /\ (forall errnum file line,
        errnum <> 0 -> file <> NULL ->
        merr_pack L E errnum file line
        = merr_pack_finish L
            (merr_pack_file_field L
               (merr_pack_off L E
                  (merr_pack_unit_checked L E (merr_pack_word_checked E file))))
            (magnitude errnum) line)
  /\ (forall file, merr_file_checked E file = file).
Proof.
  intros Hlt.
  assert (forall file, outside_libhse E file = false) as Hout.
  { intros file. unfold outside_libhse.
    destruct (Z.gtb_spec file (__start_hse_merr E)) as [|Hle]; [reflexivity|].
    destruct (Z.ltb_spec file (__stop_hse_merr E)) as [|Hge]; [reflexivity|].
    lia. }
  split; [exact Hout | split].
  - intros errnum file line He Hf. unfold merr_pack.
    destruct (Z.eqb_spec errnum 0); [contradiction|].
    destruct (Z.eqb_spec file NULL); [contradiction|].
    rewrite Hout. reflexivity.
  - intros file. unfold merr_file_checked. rewrite Hout. reflexivity.
Qed.

Lemma range_test_never_fires_witness :
  __start_hse_merr demo_env < __stop_hse_merr demo_env
  /\ (forall file, outside_libhse demo_env file = false).
Proof.
  split; [reflexivity|].
  apply (range_test_never_fires hse_layout demo_env). reflexivity.
Defined.

(** C1: a file identifier outside the table.  [0x700000] lies beyond
    [__stop_hse_merr]; the code [merr_pack] returns for it has the
    reserved bit set, but it carries the file offset [0x3ffc], and
    [merr_file] decodes a location from it. *)
Theorem merr_pack_outside_table_located :
  let file := 0x700000 in
  let err := merr_pack hse_layout demo_env 5 file 10 in
  __stop_hse_merr demo_env <= file
  /\ Z.land err (MERR_RSVD_MASK hse_layout) = MERR_RSVD_MASK hse_layout
  /\ Z.land err (MERR_FILE_MASK hse_layout) = 0x3ffc000000000000
  /\ merr_file_off hse_layout err = 0x3ffc
  /\ merr_file hse_layout demo_env err = 0x700000
  /\ merr_file hse_layout demo_env err <> NULL.
Proof.
  vm_compute. repeat split; try reflexivity; discriminate.
Qed.

(** C3, as stated, fails for the errno [0], which is in the range of the
    errno field: the code is [0], its reserved bit is clear and the line
    is not recovered. *)
Lemma errno0_no_file_packs_zero :
  let e := 0 in
  let l := 7 in
  let err := merr_pack hse_layout demo_env e NULL l in
  (0 <= e <= MERR_ERRNO_MASK hse_layout)
  /\ (0 <= l < 2 ^ (MERR_FILE_SHIFT hse_layout - MERR_LINE_SHIFT hse_layout))
  /\ Z.land err (MERR_RSVD_MASK hse_layout) = 0
  /\ merr_lineno hse_layout err <> l.
Proof.
  vm_compute. repeat split; try reflexivity; discriminate.
Qed.

(** C3, amended: for every nonzero errno [e] whose magnitude is in the
    range of the errno field and every line [l] in the range of the line
    field, [merr_pack e NULL l] has the reserved bit set and an empty file
    field, decodes to no location, and [merr_errno] and [merr_lineno]
    recover [|e|] and [l]. *)
Theorem merr_pack_no_file (L : merr_layout) (E : merr_env) (e l : Z) :
  layout_ok L ->
  e <> 0 ->
  - MERR_ERRNO_MASK L <= e <= MERR_ERRNO_MASK L ->
  0 <= l < 2 ^ (MERR_FILE_SHIFT L - MERR_LINE_SHIFT L) ->
  let err := merr_pack L E e NULL l in
  Z.land err (MERR_RSVD_MASK L) = MERR_RSVD_MASK L
  /\ MERR_RSVD_MASK L <> 0
  /\ Z.land err (MERR_FILE_MASK L) = 0
  /\ merr_file L E err = NULL
  /\ merr_errno L err = Z.abs e
  /\ merr_lineno L err = l.
Proof.
  intros HL He Hrange Hl err.
  pose proof (layout_shifts L HL) as Hs.
  destruct (merr_pack_shape L HL E e NULL l He) as (k & Hk & Hpack & Hnull & _).
  rewrite (Hnull eq_refl) in *. clear Hnull.
  rewrite (ok_errno_mask L HL) in Hrange.
  rewrite (Z.mod_small l), (Z.mod_small (Z.abs e)) in Hpack by lia.
  subst err. rewrite Hpack.
  assert (0 <= Z.abs e < 2 ^ MERR_RSVD_SHIFT L) as Hae by lia.
  assert (0 < 2 ^ MERR_RSVD_SHIFT L) by (apply pow2_pos; lia).
  assert (Z.land (fields L 0 l (Z.abs e)) (MERR_FILE_MASK L) = 0) as Hfile.
  { rewrite (fields_file_bits L HL 0 l (Z.abs e)) by assumption. reflexivity. }
  split; [apply fields_rsvd_bit; assumption|].
  split; [rewrite (ok_rsvd_mask L HL); lia|].
  split; [exact Hfile|].
  split.
  - unfold merr_file, merr_file_off. rewrite Hfile.
    change (to_s64 0) with 0. rewrite Z.shiftr_0_l. change (to_int 0) with 0.
    rewrite Z.eqb_refl. destruct (_ || _); reflexivity.
  - split; [apply fields_errno | apply fields_lineno]; assumption.
Qed.

Lemma merr_pack_no_file_witness :
  layout_ok hse_layout
  /\ -5 <> 0
  /\ - MERR_ERRNO_MASK hse_layout <= -5 <= MERR_ERRNO_MASK hse_layout
  /\ 0 <= 10 < 2 ^ (MERR_FILE_SHIFT hse_layout - MERR_LINE_SHIFT hse_layout)
  /\ merr_errno hse_layout (merr_pack hse_layout demo_env (-5) NULL 10) = 5
  /\ merr_lineno hse_layout (merr_pack hse_layout demo_env (-5) NULL 10) = 10.
Proof.
  assert (-5 <> 0) as H1 by discriminate.
  assert (- MERR_ERRNO_MASK hse_layout <= -5 <= MERR_ERRNO_MASK hse_layout) as H2
    by (cbn; lia).
  assert (0 <= 10 < 2 ^ (MERR_FILE_SHIFT hse_layout - MERR_LINE_SHIFT hse_layout)) as H3
    by (cbn; lia).
  destruct (merr_pack_no_file hse_layout demo_env (-5) 10 hse_layout_ok H1 H2 H3)
    as (_ & _ & _ & _ & Herrno & Hline).
  split; [exact hse_layout_ok|].
  split; [exact H1|]. split; [exact H2|]. split; [exact H3|].
  split; [exact Herrno | exact Hline].
Defined.

(** C7, as stated, fails: the sentinel [hse_merr_bug3] lies one alignment
    unit below [hse_merr_base], so its offset is [-1]; with a line whose
    low 16 bits are set and the errno [INT_MAX], every bit of the code is
    set. *)
Lemma merr_pack_all_ones :
  merr_pack hse_layout demo_env INT_MAX (hse_merr_bug3 demo_env) 65535 = ALL_ONES.
Proof. vm_compute. reflexivity. Qed.

Lemma fields_all_ones (L : merr_layout) (k lf ef : Z) :
  layout_ok L ->
  0 <= k < 2 ^ (64 - MERR_FILE_SHIFT L) ->
  0 <= lf < 2 ^ (MERR_FILE_SHIFT L - MERR_LINE_SHIFT L) ->
  0 <= ef < 2 ^ MERR_RSVD_SHIFT L ->
  fields L k lf ef = ALL_ONES ->
  k = 2 ^ (64 - MERR_FILE_SHIFT L) - 1
  /\ lf = 2 ^ (MERR_FILE_SHIFT L - MERR_LINE_SHIFT L) - 1
  /\ ef = 2 ^ MERR_RSVD_SHIFT L - 1.
Proof.
  intros HL Hk Hlf Hef Hall.
  pose proof (layout_shifts L HL) as Hs.
  pose proof (fields_low L HL ef Hef) as Hlow.
  change ALL_ONES with (2 ^ 64 - 1) in Hall. unfold fields in Hall.
  assert (2 ^ 64 = 2 ^ (64 - MERR_FILE_SHIFT L) * 2 ^ MERR_FILE_SHIFT L) as HpT.
  { rewrite <- pow2_split by lia. f_equal; lia. }
  assert (2 ^ MERR_FILE_SHIFT L
          = 2 ^ (MERR_FILE_SHIFT L - MERR_LINE_SHIFT L) * 2 ^ MERR_LINE_SHIFT L) as HpF.
  { rewrite <- pow2_split by lia. f_equal; lia. }
  assert (0 < 2 ^ MERR_LINE_SHIFT L) by (apply pow2_pos; lia).
  assert (0 < 2 ^ MERR_RSVD_SHIFT L) by (apply pow2_pos; lia).
  assert (0 < 2 ^ MERR_FILE_SHIFT L) by (apply pow2_pos; lia).
  rewrite HpT in Hall.
  assert (k = 2 ^ (64 - MERR_FILE_SHIFT L) - 1) as Hk1 by nia.
  split; [exact Hk1|].
  assert (lf = 2 ^ (MERR_FILE_SHIFT L - MERR_LINE_SHIFT L) - 1) as Hl1 by nia.
  split; [exact Hl1|].
  assert (2 ^ MERR_LINE_SHIFT L
          = 2 ^ (MERR_LINE_SHIFT L - MERR_RSVD_SHIFT L - 1) * 2 * 2 ^ MERR_RSVD_SHIFT L)
    as HpL.
  { replace (MERR_LINE_SHIFT L)
      with ((MERR_LINE_SHIFT L - MERR_RSVD_SHIFT L - 1) + 1 + MERR_RSVD_SHIFT L)
      at 1 by lia.
    rewrite !pow2_split by lia. reflexivity. }
  assert (0 < 2 ^ (MERR_LINE_SHIFT L - MERR_RSVD_SHIFT L - 1)) by (apply pow2_pos; lia).
  nia.
Qed.

(** C7, amended: [merr_pack] returns the all-bits-set value only for a
    file identifier whose offset is [-1], together with a line whose low
    bits fill the line field and an errno whose magnitude fills the errno
    field.  With no file identifier, or any other offset, line or errno,
    the code differs from [(merr_t)-1]. *)
Theorem merr_pack_not_all_ones (L : merr_layout) (E : merr_env) (e f l : Z) :
  layout_ok L ->
  f = NULL
  \/ merr_pack_off L E (merr_pack_unit_checked L E (merr_pack_word_checked E f)) <> -1
  \/ Z.abs e mod 2 ^ MERR_RSVD_SHIFT L <> 2 ^ MERR_RSVD_SHIFT L - 1
  \/ l mod 2 ^ (MERR_FILE_SHIFT L - MERR_LINE_SHIFT L)
     <> 2 ^ (MERR_FILE_SHIFT L - MERR_LINE_SHIFT L) - 1 ->
  merr_pack L E e f l <> ALL_ONES.
Proof.
  intros HL Hcases Hall.
  pose proof (layout_shifts L HL) as Hs.
  destruct (Z.eq_dec e 0) as [-> | He].
  { change (merr_pack L E 0 f l) with 0 in Hall. discriminate Hall. }
  destruct (merr_pack_shape L HL E e f l He) as (k & Hk & Hpack & Hnull & Hoff).
  rewrite Hpack in Hall.
  apply fields_all_ones in Hall; try assumption;
    try (apply Z.mod_pos_bound, pow2_pos; lia).
  destruct Hall as (Hk1 & Hl1 & He1).
  assert (2 ^ (64 - MERR_FILE_SHIFT L) = 2 * 2 ^ (63 - MERR_FILE_SHIFT L)) as Htop.
  { replace (64 - MERR_FILE_SHIFT L) with (1 + (63 - MERR_FILE_SHIFT L)) by lia.
    rewrite pow2_split by lia. reflexivity. }
  assert (0 < 2 ^ (63 - MERR_FILE_SHIFT L)) by (apply pow2_pos; lia).
  destruct Hcases as [Hf | [Ho | [He' | Hl']]].
  - apply Hnull in Hf. lia.
  - apply Ho. rewrite <- Hoff by lia. unfold signed_field.
    destruct (Z.ltb_spec k (2 ^ (63 - MERR_FILE_SHIFT L))); lia.
  - contradiction.
  - contradiction.
Qed.

Lemma merr_pack_not_all_ones_witness :
  layout_ok hse_layout
  /\ merr_pack hse_layout demo_env INT_MAX NULL 65535 <> ALL_ONES.
Proof.
  split; [exact hse_layout_ok|].
  apply (merr_pack_not_all_ones hse_layout demo_env INT_MAX NULL 65535 hse_layout_ok).
  left. reflexivity.
Defined.

(** ** The location decoder *)

Lemma ptr_add_small (p i : Z) : 0 <= p + i < 2 ^ 64 -> ptr_add p i = p + i.
Proof. apply to_u64_small. Qed.

Lemma strnlen_range (E : merr_env) (n : nat) (s : Z) :
  0 <= strnlen E s n <= Z.of_nat n.
Proof.
  revert s. induction n as [|n IH]; intros s.
  - cbn. lia.
  - cbn [strnlen]. destruct (is_nul (mem E s)); [lia|].
    specialize (IH (ptr_add s 1)). lia.
Qed.

(** The loop of [merr_file] gives up with [hse_merr_bug2] or stops at most
    [len] bytes below its starting point. *)
Lemma merr_file_scan_range (E : merr_env) (len : nat) (file slash : Z) :
  Z.of_nat len < file < 2 ^ 64 ->
  merr_file_scan E len file slash = hse_merr_bug2 E
  \/ file - Z.of_nat len <= merr_file_scan E len file slash <= file.
Proof.
  revert file slash. induction len as [|len IH]; intros file slash Hf.
  - right. cbn. lia.
  - cbn [merr_file_scan].
    destruct (negb (is_nul (mem E file)) && negb (isprint (mem E file)));
      [left; reflexivity|].
    rewrite ptr_add_small by lia.
    destruct (is_slash (mem E (file + -1))).
    + destruct (to_int (slash + 1) >=? 2); [right; lia|].
      destruct (IH (file + -1) (to_int (slash + 1))) as [Hb | Hr]; [lia | auto | right; lia].
    + destruct (IH (file + -1) slash) as [Hb | Hr]; [lia | auto | right; lia].
Qed.

Section DecoderFacts.

Variable L : merr_layout.
Hypothesis HL : layout_ok L.
Variable E : merr_env.

Local Abbreviation FS := (MERR_FILE_SHIFT L).

Lemma merr_file_off_field (err : merr_t) :
  merr_file_off L err = signed_field L ((err / 2 ^ FS) mod 2 ^ (64 - FS)).
Proof.
  pose proof (layout_shifts L HL) as Hs.
  pose proof (ok_file_width L HL) as Hw.
  unfold merr_file_off.
  rewrite (ok_file_mask L HL).
  replace 64 with ((64 - FS) + FS) at 1 by lia.
  rewrite field_land by lia.
  set (k := (err / 2 ^ FS) mod 2 ^ (64 - FS)).
  assert (0 <= k < 2 ^ (64 - FS)) as Hk by (apply Z.mod_pos_bound, pow2_pos; lia).
  rewrite (shiftr_signed_field L HL) by assumption.
  pose proof (signed_field_range L HL k Hk) as Hr.
  assert (2 ^ (63 - FS) <= 2 ^ 31) by (apply Z.pow_le_mono_r; lia).
  apply to_int_small. lia.
Qed.

Lemma merr_file_off_range (err : merr_t) :
  - 2 ^ (63 - FS) <= merr_file_off L err < 2 ^ (63 - FS).
Proof.
  pose proof (layout_shifts L HL) as Hs.
  rewrite merr_file_off_field. apply (signed_field_range L HL).
  apply Z.mod_pos_bound, pow2_pos; lia.
Qed.

Lemma reach_int : 0 < MERR_ALIGN L /\ 0 < reach L <= 2 ^ 31.
Proof.
  pose proof (layout_shifts L HL) as Hs.
  destruct (ok_align L HL) as (k & Hk & Hal & Hsum).
  unfold reach. rewrite Hal, <- pow2_split by lia.
  split; [apply pow2_pos; lia|].
  split; [apply pow2_pos; lia|].
  apply Z.pow_le_mono_r; lia.
Qed.

Hypothesis HE : env_ok L E.

(** The candidate address of a file field is a valid address, with room
    for a path above it. *)
Lemma merr_file_candidate_range (err : merr_t) :
  0 < merr_file_candidate L E (merr_file_off L err)
  /\ merr_file_candidate L E (merr_file_off L err) + PATH_MAX < 2 ^ 64.
Proof.
  pose proof (merr_file_off_range err) as Hoff.
  pose proof reach_int as (Hal & Hreach).
  pose proof (ok_base_low L E HE) as Hlo.
  pose proof (ok_base_high L E HE) as Hhi.
  unfold reach in *. unfold merr_file_candidate.
  assert (- (2 ^ (63 - FS) * MERR_ALIGN L) <= merr_file_off L err * MERR_ALIGN L
          < 2 ^ (63 - FS) * MERR_ALIGN L) as Hprod by nia.
  rewrite to_int_small by lia.
  unfold PATH_MAX in *.
  rewrite ptr_add_small by lia. lia.
Qed.

Lemma merr_file_non_null (err : merr_t) :
  err <> 0 -> err <> ALL_ONES -> merr_file_off L err <> 0 ->
  merr_file L E err <> NULL.
Proof.
  intros H0 H1 Hoff.
  unfold merr_file.
  destruct (Z.eqb_spec err 0); [contradiction|].
  destruct (Z.eqb_spec err ALL_ONES); [contradiction|].
  destruct (Z.eqb_spec (merr_file_off L err) 0); [contradiction|].
  cbn [orb].
  set (file := merr_file_checked E _).
  assert (0 < file /\ file + PATH_MAX < 2 ^ 64) as Hfile.
  { subst file. unfold merr_file_checked.
    destruct (outside_libhse E _);
      [exact (ok_bug3 L E HE) | apply merr_file_candidate_range]. }
  pose proof (strnlen_range E (Z.to_nat PATH_MAX) file) as Hlen.
  rewrite Z2Nat.id in Hlen by (unfold PATH_MAX; lia).
  set (len := strnlen E file (Z.to_nat PATH_MAX)) in *.
  rewrite ptr_add_small by lia.
  destruct (merr_file_scan_range E (Z.to_nat len) (file + len) 0) as [Hb | Hr].
  - rewrite Z2Nat.id by lia. lia.
  - rewrite Hb. pose proof (ok_bug2 L E HE). unfold NULL. lia.
  - rewrite Z2Nat.id in Hr by lia. unfold NULL. lia.
Qed.

End DecoderFacts.

(** The signed value [merr_file] extracts is [0] exactly when the bits
    of the file field are all clear. *)
Lemma merr_file_off_zero_iff (L : merr_layout) (err : merr_t) :
  layout_ok L ->
  merr_file_off L err = 0 <-> Z.land err (MERR_FILE_MASK L) = 0.
Proof.
  intros HL. pose proof (layout_shifts L HL) as Hs.
  rewrite (merr_file_off_field L HL).
  rewrite (ok_file_mask L HL).
  replace 64 with ((64 - MERR_FILE_SHIFT L) + MERR_FILE_SHIFT L) at 2 by lia.
  rewrite field_land by lia.
  set (k := (err / 2 ^ MERR_FILE_SHIFT L) mod 2 ^ (64 - MERR_FILE_SHIFT L)).
  assert (0 <= k < 2 ^ (64 - MERR_FILE_SHIFT L)) as Hk
    by (apply Z.mod_pos_bound, pow2_pos; lia).
  assert (0 < 2 ^ MERR_FILE_SHIFT L) by (apply pow2_pos; lia).
  assert (0 < 2 ^ (63 - MERR_FILE_SHIFT L)) by (apply pow2_pos; lia).
  unfold signed_field.
  destruct (Z.ltb_spec k (2 ^ (63 - MERR_FILE_SHIFT L))); split; intros Hz; nia.
Qed.

(** C8: [merr_file] returns [NULL] exactly when the code is [0], is the
    all-ones sentinel, or has a file field whose bits are all clear (the
    field then reads, as a signed value, [0]). *)
Theorem merr_file_null_iff (L : merr_layout) (E : merr_env) (err : merr_t) :
  layout_ok L -> env_ok L E ->
  merr_file L E err = NULL
  <-> (err = 0 \/ err = ALL_ONES \/ Z.land err (MERR_FILE_MASK L) = 0).
Proof.
  intros HL HE. pose proof (merr_file_off_zero_iff L err HL) as Hoffz. split.
  - intros Hnull.
    destruct (Z.eq_dec err 0) as [|H0]; [auto|].
    destruct (Z.eq_dec err ALL_ONES) as [|H1]; [auto|].
    destruct (Z.eq_dec (merr_file_off L err) 0) as [Hz|Hoff];
      [right; right; apply Hoffz; exact Hz|].
    exfalso. exact (merr_file_non_null L HL E HE err H0 H1 Hoff Hnull).
  - intros Hcases. unfold merr_file.
    destruct (Z.eqb_spec err 0); [reflexivity|].
    destruct (Z.eqb_spec err ALL_ONES); [reflexivity|].
    cbn [orb].
    destruct (Z.eqb_spec (merr_file_off L err) 0) as [|Hoff]; [reflexivity|].
    destruct Hcases as [? | [? | Hbits]]; try contradiction.
    apply Hoffz in Hbits. contradiction.
Qed.

Lemma merr_file_null_iff_witness :
  layout_ok hse_layout /\ env_ok hse_layout demo_env
  /\ merr_file hse_layout demo_env 0x0001000a80000005 = 0x600154
  /\ (merr_file hse_layout demo_env 0x0001000a80000005 = NULL
      <-> (0x0001000a80000005 = 0
           \/ 0x0001000a80000005 = ALL_ONES
           \/ Z.land 0x0001000a80000005 (MERR_FILE_MASK hse_layout) = 0)).
Proof.
  split; [exact hse_layout_ok | split; [exact demo_env_ok|]].
  split; [vm_compute; reflexivity|].
  exact (merr_file_null_iff hse_layout demo_env 0x0001000a80000005
           hse_layout_ok demo_env_ok).
Defined.

(** The loop of [merr_file] on a string of [n] bytes at [p], entered with
    the cursor at index [i] and [slash] separators in [[i, n)]: it gives
    up with [hse_merr_bug2], or stops at an index [j] such that the bytes
    from [j] on hold at most one separator, [j] is the start of the string
    or follows a separator, and every byte of the indices [max j 1 .. i]
    is printable or NUL. *)
Lemma merr_file_scan_inv (E : merr_env) (p : Z) (n : nat) :
  0 < p -> p + Z.of_nat n < 2 ^ 64 ->
  forall (i : nat) (slash : Z),
    (i <= n)%nat ->
    slash = Z.of_nat (slashes (bytes_at E (p + Z.of_nat i) (n - i))) ->
    slash <= 1 ->
    merr_file_scan E i (p + Z.of_nat i) slash = hse_merr_bug2 E
    \/ exists j : nat,
         (j <= i)%nat
         /\ merr_file_scan E i (p + Z.of_nat i) slash = p + Z.of_nat j
         /\ (slashes (bytes_at E (p + Z.of_nat j) (n - j)) <= 1)%nat
         /\ (j = 0%nat \/ is_slash (mem E (p + Z.of_nat j - 1)) = true)
         /\ (forall idx : nat, (j <= idx <= i)%nat -> (1 <= idx)%nat ->
               unprintable (mem E (p + Z.of_nat idx)) = false).
Proof.
  intros Hp Hend. induction i as [|i IH]; intros slash Hi Hslash Hle.
  - right. exists 0%nat. cbn [merr_file_scan].
    split; [lia|]. split; [reflexivity|]. split; [lia|]. split; [left; reflexivity|].
    intros idx H1 H2. lia.
  - cbn [merr_file_scan]. fold (unprintable (mem E (p + Z.of_nat (S i)))).
    destruct (unprintable (mem E (p + Z.of_nat (S i)))) eqn:Hprint; [left; reflexivity|].
    rewrite ptr_add_small by lia.
    replace (p + Z.of_nat (S i) + -1) with (p + Z.of_nat i) by lia.
    assert (bytes_at E (p + Z.of_nat i) (n - i)
            = String (mem E (p + Z.of_nat i))
                (bytes_at E (p + Z.of_nat (S i)) (n - S i))) as Hbytes.
    { replace (n - i)%nat with (S (n - S i)) by lia. cbn [bytes_at].
      rewrite ptr_add_small by lia. do 2 f_equal. lia. }
    assert (0 <= slash) as Hnn by lia.
    destruct (is_slash (mem E (p + Z.of_nat i))) eqn:Hsl.
    + rewrite to_int_small by lia.
      destruct (Z.geb_spec (slash + 1) 2) as [Hge | Hlt].
      * right. exists (S i).
        split; [lia|]. split; [reflexivity|]. split; [lia|]. split.
        { right. replace (p + Z.of_nat (S i) - 1) with (p + Z.of_nat i) by lia. exact Hsl. }
        intros idx H1 H2. assert (idx = S i) as -> by lia. exact Hprint.
      * destruct (IH (slash + 1)) as [Hb | (j & Hj & Hr & Hcnt & Hstart & Hchk)];
          [lia | rewrite Hbytes; cbn [slashes]; rewrite Hsl; lia | lia | left; exact Hb |].
        right. exists j. split; [lia|]. split; [exact Hr|]. split; [exact Hcnt|].
        split; [exact Hstart|].
        intros idx H1 H2. destruct (Nat.eq_dec idx (S i)) as [-> | Hne];
          [exact Hprint | apply Hchk; lia].
    + destruct (IH slash) as [Hb | (j & Hj & Hr & Hcnt & Hstart & Hchk)];
        [lia | rewrite Hbytes; cbn [slashes]; rewrite Hsl; lia | lia | left; exact Hb |].
      right. exists j. split; [lia|]. split; [exact Hr|]. split; [exact Hcnt|].
      split; [exact Hstart|].
      intros idx H1 H2. destruct (Nat.eq_dec idx (S i)) as [-> | Hne];
        [exact Hprint | apply Hchk; lia].
Qed.

(** What [merr_file] returns for a code with a location: the string it
    scans is the one at the checked candidate address, [n] bytes long
    ([strnlen], at most [PATH_MAX]); the result is [hse_merr_bug2] or
    points at the index [j] of that string described in
    [merr_file_scan_inv]. *)
Theorem merr_file_last_two_components (L : merr_layout) (E : merr_env) (err : merr_t) :
  layout_ok L -> env_ok L E ->
  err <> 0 -> err <> ALL_ONES -> merr_file_off L err <> 0 ->
  let p := merr_file_checked E (merr_file_candidate L E (merr_file_off L err)) in
  let n := Z.to_nat (strnlen E p (Z.to_nat PATH_MAX)) in
  merr_file L E err = hse_merr_bug2 E
  \/ exists j : nat,
       (j <= n)%nat
       /\ merr_file L E err = p + Z.of_nat j
       /\ (slashes (bytes_at E (p + Z.of_nat j) (n - j)) <= 1)%nat
       /\ (j = 0%nat \/ is_slash (mem E (p + Z.of_nat j - 1)) = true)
       /\ (forall idx : nat, (j <= idx <= n)%nat -> (1 <= idx)%nat ->
             unprintable (mem E (p + Z.of_nat idx)) = false).
Proof.
  intros HL HE H0 H1 Hoff p n.
  assert (0 < p /\ p + PATH_MAX < 2 ^ 64) as Hp.
  { subst p. unfold merr_file_checked.
    destruct (outside_libhse E _);
      [exact (ok_bug3 L E HE) | apply (merr_file_candidate_range L HL E HE)]. }
  pose proof (strnlen_range E (Z.to_nat PATH_MAX) p) as Hlen.
  rewrite Z2Nat.id in Hlen by (unfold PATH_MAX; lia).
  assert (merr_file L E err = merr_file_scan E n (p + Z.of_nat n) 0) as Hfile.
  { unfold merr_file.
    destruct (Z.eqb_spec err 0); [contradiction|].
    destruct (Z.eqb_spec err ALL_ONES); [contradiction|].
    destruct (Z.eqb_spec (merr_file_off L err) 0); [contradiction|].
    cbn [orb]. fold p. fold n.
    rewrite ptr_add_small by lia.
    subst n. rewrite Z2Nat.id by lia. reflexivity. }
  rewrite Hfile.
  apply merr_file_scan_inv.
  - lia.
  - subst n. rewrite Z2Nat.id by lia. lia.
  - lia.
  - rewrite Nat.sub_diag. reflexivity.
  - lia.
Qed.

(** C6: a path whose first byte is not printable.  The string at
    [0x600180] has no separator and begins with the byte 1; the loop of
    [merr_file] tests the bytes at indices 3, 2 and 1 and stops, so the
    path is returned as it is, not [hse_merr_bug2].  The same byte at
    index 1 (the string at [0x6001c0]) is found, and a printable path is
    cut to its last two components. *)
Theorem merr_file_first_byte_unchecked :
  let err := merr_pack hse_layout demo_env 5 0x600180 10 in
  cstring_at demo_env 0x600180 = Some (String (ascii_of_nat 1) "bc")
  /\ isprint (mem demo_env 0x600180) = false
  /\ merr_file hse_layout demo_env err = 0x600180
  /\ merr_file hse_layout demo_env err <> hse_merr_bug2 demo_env
  /\ merr_file hse_layout demo_env (merr_pack hse_layout demo_env 5 0x6001c0 10)
     = hse_merr_bug2 demo_env
  /\ cstring_at demo_env
       (merr_file hse_layout demo_env (merr_pack hse_layout demo_env 5 0x600140 10))
     = Some "src/hse_err.c"%string.
Proof.
  vm_compute. repeat split; try reflexivity; discriminate.
Qed.

(** ** The formatter *)

Lemma str_take_all (n : nat) (s : string) :
  (String.length s <= n)%nat -> str_take n s = s.
Proof.
  revert n. induction s as [|ch s IH]; intros n Hn.
  - destruct n; reflexivity.
  - destruct n as [|n]; cbn in Hn; [lia|].
    cbn. f_equal. apply IH. lia.
Qed.

(** C4: the software-defect branch.  For a code whose errno is [EBUG],
    [merr_strerror] returns 16, the length of "HSE software bug" without
    the terminator, on every platform and for every buffer; the
    invalid-code branch next to it returns the length plus one. *)
Theorem merr_strerror_ebug_size (P : platform) (buf : string) (buf_sz : Z) :
  let err := merr_pack hse_layout demo_env (EBUG hse_layout) NULL 0 in
  merr_errno hse_layout err = EBUG hse_layout
  /\ merr_strerror hse_layout P err buf buf_sz
     = Some (fst (strlcpy buf "HSE software bug" buf_sz), 16)
  /\ 16 <> strlen "HSE software bug" + 1
  /\ merr_strerror hse_layout demo_platform
       (merr_pack hse_layout demo_env 7 NULL 0) buf 100
     = Some ("<invalid error code>"%string, strlen "<invalid error code>" + 1).
Proof.
  cbv zeta. split; [reflexivity | split; [| split; [vm_compute; discriminate | reflexivity]]].
  unfold merr_strerror.
  replace (merr_errno hse_layout (merr_pack hse_layout demo_env (EBUG hse_layout) NULL 0)
           =? EBUG hse_layout) with true by reflexivity.
  reflexivity.
Qed.

(** C5: when there is a location but its prefix does not fit in the
    buffer, [merr_strinfo] leaves the truncated prefix in the buffer,
    never consults the platform for a description, and stores the length
    of the prefix plus 200 through [need_sz]. *)
Theorem merr_strinfo_prefix_too_long
  (L : merr_layout) (E : merr_env) (P : platform)
  (err : merr_t) (buf pfx : string) (buf_sz : Z) :
  err <> 0 ->
  Z.land err (MERR_RSVD_MASK L) <> 0 ->
  merr_file L E err <> NULL ->
  location_prefix E (merr_file L E err) (merr_lineno L err) = Some pfx ->
  0 <= buf_sz <= strlen pfx ->
  strlen pfx <= INT_MAX - 200 ->
  merr_strinfo L E P err buf buf_sz
  = Some {| out_buf := if buf_sz =? 0 then buf
                       else str_take (Z.to_nat (buf_sz - 1)) pfx;
            out_need_sz := Some (strlen pfx + 200) |}
  /\ strlen pfx <= strlen pfx + 200.
Proof.
  intros H0 Hrsvd Hfile Hpfx Hsz Hmax. split; [|lia].
  unfold INT_MAX in Hmax.
  unfold merr_strinfo, merr_strinfo_prefix.
  destruct (Z.eqb_spec err 0); [contradiction|].
  destruct (Z.eqb_spec (Z.land err (MERR_RSVD_MASK L)) 0); [contradiction|].
  destruct (Z.eqb_spec (merr_file L E err) NULL); [contradiction|].
  rewrite Hpfx. unfold snprintf.
  destruct (Z.ltb_spec INT_MAX (strlen pfx)) as [Hbig|_]; [unfold INT_MAX in Hbig; lia|].
  destruct (Z.ltb_spec (strlen pfx) 0); [lia|].
  rewrite to_u64_small by lia.
  destruct (Z.geb_spec (strlen pfx) buf_sz); [|lia].
  rewrite to_int_small by lia.
  rewrite to_u64_small by lia.
  reflexivity.
Qed.

Lemma merr_strinfo_prefix_too_long_witness :
  let err := merr_pack hse_layout demo_env 2 0x600140 123 in
  location_prefix demo_env (merr_file hse_layout demo_env err)
    (merr_lineno hse_layout err) = Some "src/hse_err.c:123: "%string
  /\ merr_strinfo hse_layout demo_env demo_platform err "" 10
     = Some {| out_buf := "src/hse_e"; out_need_sz := Some 219 |}.
Proof.
  cbv zeta. split; [vm_compute; reflexivity|].
  refine (proj1 (merr_strinfo_prefix_too_long hse_layout demo_env demo_platform
                   (merr_pack hse_layout demo_env 2 0x600140 123)
                   "" "src/hse_err.c:123: " 10 _ _ _ _ _ _)).
  - vm_compute. discriminate.
  - vm_compute. discriminate.
  - vm_compute. discriminate.
  - vm_compute. reflexivity.
  - vm_compute. split; discriminate.
  - vm_compute. discriminate.
Defined.

(** C9: the code of the software-defect errno [EBUG], formatted into a
    buffer that has room for the location prefix and the description,
    reads as the prefix followed by "HSE software bug", whatever the
    platform's errno lookup would answer. *)
Theorem merr_strinfo_ebug
  (L : merr_layout) (E : merr_env) (P : platform)
  (file line : Z) (buf b : string) (buf_sz sz : Z) :
  layout_ok L ->
  merr_strinfo_prefix L E (merr_pack L E (EBUG L) file line) buf buf_sz = (b, sz) ->
  0 <= sz ->
  sz + strlen "HSE software bug" < buf_sz < 2 ^ 64 ->
  exists r,
    merr_strinfo L E P (merr_pack L E (EBUG L) file line) buf buf_sz = Some r
    /\ out_buf r = (str_take (Z.to_nat sz) b ++ "HSE software bug")%string
    /\ contains "HSE software bug" (out_buf r).
Proof.
  intros HL Hpfx Hsz Hroom.
  change (strlen "HSE software bug") with 16 in Hroom.
  pose proof (layout_shifts L HL) as Hs.
  pose proof (ok_ebug L HL) as Hebug. rewrite (ok_errno_mask L HL) in Hebug.
  assert (EBUG L <> 0) as Hne by lia.
  destruct (merr_pack_shape L HL E (EBUG L) file line Hne) as (k & Hk & Hpack & _).
  rewrite (Z.mod_small (Z.abs (EBUG L))) in Hpack by lia.
  rewrite Z.abs_eq in Hpack by lia.
  set (lf := line mod 2 ^ (MERR_FILE_SHIFT L - MERR_LINE_SHIFT L)) in *.
  assert (0 <= lf < 2 ^ (MERR_FILE_SHIFT L - MERR_LINE_SHIFT L)) as Hlf
    by (apply Z.mod_pos_bound, pow2_pos; lia).
  assert (0 <= EBUG L < 2 ^ MERR_RSVD_SHIFT L) as He by lia.
  pose proof (fields_range L HL k lf (EBUG L) Hk Hlf He) as Hrange.
  pose proof (fields_rsvd_bit L HL k lf (EBUG L) He) as Hrsvd.
  pose proof (fields_errno L HL k lf (EBUG L) He) as Herrno.
  rewrite <- Hpack in Hrange, Hrsvd, Herrno.
  set (err := merr_pack L E (EBUG L) file line) in *.
  assert (0 < 2 ^ MERR_RSVD_SHIFT L) by (apply pow2_pos; lia).
  eexists. split; [|split].
  - unfold merr_strinfo.
    destruct (Z.eqb_spec err 0); [lia|].
    destruct (Z.eqb_spec (Z.land err (MERR_RSVD_MASK L)) 0) as [Hz|_].
    { rewrite Hrsvd, (ok_rsvd_mask L HL) in Hz. lia. }
    rewrite Hpfx.
    destruct (Z.ltb_spec sz 0); [lia|].
    rewrite to_u64_small by lia.
    destruct (Z.geb_spec sz buf_sz); [lia|].
    unfold merr_strerror. rewrite Herrno, Z.eqb_refl.
    unfold strlcpy. rewrite (to_u64_small (buf_sz - sz)) by lia.
    destruct (Z.eqb_spec (buf_sz - sz) 0); [lia|].
    rewrite (str_take_all _ "HSE software bug")
      by (change (String.length "HSE software bug") with 16%nat; lia).
    reflexivity.
  - reflexivity.
  - cbn [out_buf]. exists (str_take (Z.to_nat sz) b), EmptyString. reflexivity.
Qed.

Lemma merr_strinfo_ebug_witness :
  layout_ok hse_layout
  /\ merr_strinfo_prefix hse_layout demo_env
       (merr_pack hse_layout demo_env (EBUG hse_layout) 0x600140 123) "" 64
     = ("src/hse_err.c:123: "%string, 19)
  /\ exists r,
       merr_strinfo hse_layout demo_env demo_platform
         (merr_pack hse_layout demo_env (EBUG hse_layout) 0x600140 123) "" 64 = Some r
       /\ out_buf r = "src/hse_err.c:123: HSE software bug"%string.
Proof.
  split; [exact hse_layout_ok|].
  split; [vm_compute; reflexivity|].
  destruct (merr_strinfo_ebug hse_layout demo_env demo_platform 0x600140 123
              "" "src/hse_err.c:123: " 64 19 hse_layout_ok)
    as (r & Hr & Hbuf & _).
  - vm_compute. reflexivity.
  - discriminate.
  - vm_compute. split; reflexivity.
  - exists r. split; [exact Hr | exact Hbuf].
Defined.

(** ** Further properties of the encoder *)

Section PackRoundTrip.

Variable L : merr_layout.
Hypothesis HL : layout_ok L.
Variable E : merr_env.

Local Abbreviation FS := (MERR_FILE_SHIFT L).
Local Abbreviation LS := (MERR_LINE_SHIFT L).
Local Abbreviation RS := (MERR_RSVD_SHIFT L).

Lemma line_field_range (l : Z) : 0 <= l mod 2 ^ (FS - LS) < 2 ^ (FS - LS).
Proof.
  pose proof (layout_shifts L HL). apply Z.mod_pos_bound, pow2_pos. lia.
Qed.

Lemma errno_field_range (e : Z) : 0 <= e mod 2 ^ RS < 2 ^ RS.
Proof.
  pose proof (layout_shifts L HL). apply Z.mod_pos_bound, pow2_pos. lia.
Qed.

Lemma errno_pack (e f l : Z) :
  Z.abs e <= MERR_ERRNO_MASK L ->
  merr_errno L (merr_pack L E e f l) = Z.abs e.
Proof.
  intros He. pose proof (layout_shifts L HL) as Hs.
  rewrite (ok_errno_mask L HL) in He.
  destruct (Z.eq_dec e 0) as [-> | Hne].
  - reflexivity.
  - destruct (merr_pack_shape L HL E e f l Hne) as (k & Hk & Hpack & _).
    rewrite Hpack, (fields_errno L HL) by apply errno_field_range.
    apply Z.mod_small. lia.
Qed.

Lemma lineno_pack (e f l : Z) :
  e <> 0 ->
  merr_lineno L (merr_pack L E e f l) = l mod 2 ^ (FS - LS).
Proof.
  intros Hne.
  destruct (merr_pack_shape L HL E e f l Hne) as (k & Hk & Hpack & _).
  rewrite Hpack.
  apply (fields_lineno L HL); [apply line_field_range | apply errno_field_range].
Qed.

(** The errno survives the round trip for every file identifier and
    line: [merr_errno (merr_pack e f l) = |e|] as long as [|e|] fits the
    errno field. *)
Theorem merr_errno_pack (e f l : Z) :
  Z.abs e <= MERR_ERRNO_MASK L ->
  merr_errno L (merr_pack L E e f l) = Z.abs e.
Proof. apply errno_pack. Qed.

(** The line is stored modulo the width of its field: a line that does
    not fit wraps around, and the errno and the reserved bit next to it
    are not disturbed. *)
Theorem merr_lineno_pack (e f l : Z) :
  e <> 0 -> - 2 ^ 31 < e < 2 ^ 31 ->
  merr_lineno L (merr_pack L E e f l) = l mod 2 ^ (FS - LS)
  /\ merr_errno L (merr_pack L E e f l) = Z.abs e mod 2 ^ RS
  /\ Z.land (merr_pack L E e f l) (MERR_RSVD_MASK L) = MERR_RSVD_MASK L.
Proof.
  intros Hne _.
  destruct (merr_pack_shape L HL E e f l Hne) as (k & Hk & Hpack & _).
  rewrite Hpack.
  split; [|split].
  - apply (fields_lineno L HL); [apply line_field_range | apply errno_field_range].
  - apply (fields_errno L HL). apply errno_field_range.
  - apply (fields_rsvd_bit L HL). apply errno_field_range.
Qed.

(** Zero means success and nothing else: [merr_pack] returns [0] exactly
    for the errno [0]; for every other errno the code is a nonzero 64-bit
    value with the reserved bit set, whatever the file identifier is. *)
Theorem merr_pack_reserved (e f l : Z) :
  (merr_pack L E e f l = 0 <-> e = 0)
  /\ (e <> 0 ->
      0 < merr_pack L E e f l < 2 ^ 64
      /\ Z.land (merr_pack L E e f l) (MERR_RSVD_MASK L) = MERR_RSVD_MASK L
      /\ MERR_RSVD_MASK L <> 0).
Proof.
  pose proof (layout_shifts L HL) as Hs.
  assert (e <> 0 ->
          0 < merr_pack L E e f l < 2 ^ 64
          /\ Z.land (merr_pack L E e f l) (MERR_RSVD_MASK L) = MERR_RSVD_MASK L
          /\ MERR_RSVD_MASK L <> 0) as Hnz.
  { intros Hne.
    destruct (merr_pack_shape L HL E e f l Hne) as (k & Hk & Hpack & _).
    rewrite Hpack.
    split; [apply (fields_range L HL); auto using line_field_range, errno_field_range|].
    split; [apply (fields_rsvd_bit L HL); apply errno_field_range|].
    rewrite (ok_rsvd_mask L HL).
    assert (0 < 2 ^ RS) by (apply pow2_pos; lia). lia. }
  split; [|exact Hnz].
  split.
  - intros Hz. destruct (Z.eq_dec e 0) as [|Hne]; [assumption|].
    apply Hnz in Hne. lia.
  - intros ->. reflexivity.
Qed.

End PackRoundTrip.

(** The sign of the errno is discarded: [e] and [-e] are packed alike. *)
Theorem merr_pack_sign (L : merr_layout) (E : merr_env) (e f l : Z) :
  - 2 ^ 31 < e < 2 ^ 31 ->
  merr_pack L E (- e) f l = merr_pack L E e f l.
Proof.
  intros He. unfold merr_pack.
  destruct (Z.eqb_spec e 0) as [-> | Hne]; [reflexivity|].
  destruct (Z.eqb_spec (- e) 0); [lia|].
  assert (magnitude (- e) = magnitude e) as ->; [|reflexivity].
  unfold magnitude.
  destruct (Z.ltb_spec (- e) 0), (Z.ltb_spec e 0); try lia.
  - rewrite Z.opp_involutive. apply to_int_small. lia.
  - symmetry. apply to_int_small. lia.
Qed.

Lemma merr_errno_pack_witness :
  layout_ok hse_layout
  /\ Z.abs (-22) <= MERR_ERRNO_MASK hse_layout
  /\ merr_errno hse_layout (merr_pack hse_layout demo_env (-22) 0x600140 77) = Z.abs (-22).
Proof.
  split; [exact hse_layout_ok|].
  split; [vm_compute; discriminate|].
  apply (merr_errno_pack hse_layout hse_layout_ok demo_env (-22) 0x600140 77).
  vm_compute. discriminate.
Defined.

Lemma merr_lineno_pack_witness :
  layout_ok hse_layout
  /\ 5 <> 0
  /\ - 2 ^ 31 < 5 < 2 ^ 31
  /\ merr_lineno hse_layout (merr_pack hse_layout demo_env 5 0x600140 65546)
     = 65546 mod 2 ^ (MERR_FILE_SHIFT hse_layout - MERR_LINE_SHIFT hse_layout)
  /\ merr_errno hse_layout (merr_pack hse_layout demo_env 5 0x600140 65546)
     = Z.abs 5 mod 2 ^ MERR_RSVD_SHIFT hse_layout.
Proof.
  assert (5 <> 0) as H1 by discriminate.
  assert (- 2 ^ 31 < 5 < 2 ^ 31) as H2 by (split; reflexivity).
  split; [exact hse_layout_ok|]. split; [exact H1|]. split; [exact H2|].
  destruct (merr_lineno_pack hse_layout hse_layout_ok demo_env 5 0x600140 65546 H1 H2)
    as (Hline & Herrno & _).
  split; [exact Hline | exact Herrno].
Defined.

Lemma merr_pack_reserved_witness :
  layout_ok hse_layout
  /\ (merr_pack hse_layout demo_env 5 0x600140 10 = 0 <-> 5 = 0).
Proof.
  split; [exact hse_layout_ok|].
  exact (proj1 (merr_pack_reserved hse_layout hse_layout_ok demo_env 5 0x600140 10)).
Defined.

Lemma merr_pack_sign_witness :
  - 2 ^ 31 < 22 < 2 ^ 31
  /\ merr_pack hse_layout demo_env (- 22) 0x600140 10
     = merr_pack hse_layout demo_env 22 0x600140 10.
Proof.
  split; [split; reflexivity|].
  apply (merr_pack_sign hse_layout demo_env 22 0x600140 10).
  split; reflexivity.
Defined.

Section PackLocated.

Variable L : merr_layout.
Hypothesis HL : layout_ok L.
Variable E : merr_env.

Local Abbreviation FS := (MERR_FILE_SHIFT L).
Local Abbreviation LS := (MERR_LINE_SHIFT L).
Local Abbreviation RS := (MERR_RSVD_SHIFT L).

Lemma top_split : 2 ^ (64 - FS) = 2 * 2 ^ (63 - FS) /\ 0 < 2 ^ (63 - FS).
Proof.
  pose proof (layout_shifts L HL) as Hs.
  split; [|apply pow2_pos; lia].
  replace (64 - FS) with (1 + (63 - FS)) by lia.
  rewrite pow2_split by lia. reflexivity.
Qed.

Lemma signed_field_mod (o : Z) :
  - 2 ^ (63 - FS) <= o < 2 ^ (63 - FS) ->
  signed_field L (o mod 2 ^ (64 - FS)) = o.
Proof.
  intros Ho. destruct top_split as [Htop Hpos].
  unfold signed_field.
  destruct (Z_lt_le_dec o 0) as [Hneg | Hnn].
  - assert (o mod 2 ^ (64 - FS) = o + 2 ^ (64 - FS)) as ->.
    { symmetry. apply Z.mod_unique with (q := -1); [left; lia | lia]. }
    destruct (Z.ltb_spec (o + 2 ^ (64 - FS)) (2 ^ (63 - FS))); lia.
  - rewrite Z.mod_small by lia.
    destruct (Z.ltb_spec o (2 ^ (63 - FS))); lia.
Qed.

Lemma file_field_in_range (o : Z) :
  - 2 ^ (63 - FS) <= o < 2 ^ (63 - FS) ->
  merr_pack_file_field L o = o mod 2 ^ (64 - FS) * 2 ^ FS.
Proof.
  intros Ho. pose proof (layout_shifts L HL) as Hs.
  unfold merr_pack_file_field.
  rewrite shl_u64 by lia.
  rewrite (shiftr_signed_field L HL) by (apply Z.mod_pos_bound, pow2_pos; lia).
  rewrite signed_field_mod by assumption.
  rewrite Z.eqb_refl. reflexivity.
Qed.

Lemma file_field_out_of_range (o : Z) :
  ~ (- 2 ^ (63 - FS) <= o < 2 ^ (63 - FS)) ->
  merr_pack_file_field L o = 0.
Proof.
  intros Ho. pose proof (layout_shifts L HL) as Hs.
  unfold merr_pack_file_field.
  rewrite shl_u64 by lia.
  assert (0 <= o mod 2 ^ (64 - FS) < 2 ^ (64 - FS)) as Hk
    by (apply Z.mod_pos_bound, pow2_pos; lia).
  rewrite (shiftr_signed_field L HL) by assumption.
  pose proof (signed_field_range L HL _ Hk) as Hr.
  destruct (Z.eqb_spec (signed_field L (o mod 2 ^ (64 - FS))) o) as [Heq|]; [|reflexivity].
  rewrite Heq in Hr. contradiction.
Qed.

Lemma fields_file_off (k lf ef : Z) :
  0 <= k < 2 ^ (64 - FS) ->
  0 <= lf < 2 ^ (FS - LS) ->
  0 <= ef < 2 ^ RS ->
  merr_file_off L (fields L k lf ef) = signed_field L k.
Proof.
  intros Hk Hlf Hef. pose proof (layout_shifts L HL) as Hs.
  rewrite (merr_file_off_field L HL). f_equal.
  pose proof (fields_mid L HL lf ef Hlf Hef) as Hmid.
  unfold fields.
  replace (k * 2 ^ FS + lf * 2 ^ LS + 2 ^ RS + ef)
    with (k * 2 ^ FS + (lf * 2 ^ LS + 2 ^ RS + ef)) by ring.
  rewrite split_div by assumption.
  apply Z.mod_small. assumption.
Qed.

(** The offset [merr_pack] computes for an entry of the table. *)
Lemma merr_pack_off_entry (file o : Z) :
  table_entry L E file o -> merr_pack_off L E file = o.
Proof.
  intros He. pose proof (reach_int L HL) as (Hal & Hreach).
  destruct top_split as [Htop Hpos].
  pose proof (entry_off L E file o He) as Ho.
  unfold merr_pack_off. rewrite (entry_addr L E file o He).
  replace (hse_merr_base E + o * MERR_ALIGN L - hse_merr_base E)
    with (o * MERR_ALIGN L) by ring.
  unfold reach in Hreach.
  rewrite to_s64_small by nia.
  apply Z.quot_mul. lia.
Qed.

(** The code of an entry of the table, field by field. *)
Lemma merr_pack_entry (e file o l : Z) :
  table_entry L E file o -> e <> 0 ->
  merr_pack L E e file l
  = fields L (o mod 2 ^ (64 - FS)) (l mod 2 ^ (FS - LS)) (Z.abs e mod 2 ^ RS).
Proof.
  intros He Hne. pose proof (layout_shifts L HL) as Hs.
  pose proof (entry_ptr L E file o He) as Hptr.
  unfold merr_pack.
  destruct (Z.eqb_spec e 0); [contradiction|].
  destruct (Z.eqb_spec file NULL) as [Hnull|_]; [unfold NULL in Hnull; lia|].
  unfold merr_pack_word_checked, merr_pack_unit_checked.
  rewrite to_u64_small by lia.
  rewrite (entry_word L E file o He). cbn [negb].
  rewrite (entry_inside L E file o He).
  rewrite to_u64_small by lia.
  rewrite (entry_unit L E file o He). cbn [negb].
  rewrite (merr_pack_off_entry file o He).
  rewrite file_field_in_range by apply (entry_off L E file o He).
  rewrite (finish_fields L HL) by (apply Z.mod_pos_bound, pow2_pos; lia).
  rewrite (magnitude_mod L HL). reflexivity.
Qed.

Lemma file_off_pack_entry (e file o l : Z) :
  table_entry L E file o -> e <> 0 ->
  merr_file_off L (merr_pack L E e file l) = o
  /\ merr_file_candidate L E (merr_file_off L (merr_pack L E e file l)) = file.
Proof.
  intros He Hne. pose proof (layout_shifts L HL) as Hs.
  pose proof (reach_int L HL) as (Hal & Hreach).
  destruct top_split as [Htop Hpos].
  pose proof (entry_off L E file o He) as Ho.
  assert (merr_file_off L (merr_pack L E e file l) = o) as Hoff.
  { rewrite (merr_pack_entry e file o l He Hne).
    rewrite fields_file_off;
      [apply signed_field_mod; assumption | | apply (line_field_range L HL)
       | apply (errno_field_range L HL)].
    apply Z.mod_pos_bound, pow2_pos; lia. }
  split; [exact Hoff|].
  rewrite Hoff. unfold merr_file_candidate, reach in *.
  rewrite to_int_small by nia.
  unfold ptr_add. rewrite <- (entry_addr L E file o He).
  apply to_u64_small. pose proof (entry_ptr L E file o He). lia.
Qed.

(** The file offset survives the round trip: for an entry of the table
    [merr_file] extracts the offset [merr_pack] stored, and its candidate
    address is the file identifier that was packed. *)
Theorem merr_file_off_pack (e file o l : Z) :
  table_entry L E file o -> e <> 0 -> - 2 ^ 31 < e < 2 ^ 31 ->
  merr_file_off L (merr_pack L E e file l) = o
  /\ merr_file_candidate L E (merr_file_off L (merr_pack L E e file l)) = file.
Proof. intros He Hne _. apply file_off_pack_entry; assumption. Qed.

(** An offset that does not fit the file field is dropped, not truncated:
    the code is the one of the same errno and line without a file
    identifier. *)
Theorem merr_pack_off_too_far (e file l : Z) :
  file <> NULL ->
  ~ (- 2 ^ (63 - FS)
     <= merr_pack_off L E (merr_pack_unit_checked L E (merr_pack_word_checked E file))
     < 2 ^ (63 - FS)) ->
  merr_pack L E e file l = merr_pack L E e NULL l.
Proof.
  intros Hf Hfar. unfold merr_pack.
  destruct (Z.eqb_spec e 0); [reflexivity|].
  destruct (Z.eqb_spec file NULL); [contradiction|].
  cbn [Z.eqb NULL].
  destruct (outside_libhse E _); [reflexivity|].
  rewrite file_field_out_of_range by assumption. reflexivity.
Qed.

(** [hse_merr_base] itself cannot be located: its offset is [0], which
    [merr_file] reads as "no location". *)
Theorem merr_file_pack_base (e l : Z) :
  table_entry L E (hse_merr_base E) 0 -> e <> 0 -> - 2 ^ 31 < e < 2 ^ 31 ->
  merr_pack L E e (hse_merr_base E) l = merr_pack L E e NULL l
  /\ merr_file L E (merr_pack L E e (hse_merr_base E) l) = NULL.
Proof.
  intros He Hne _. pose proof (layout_shifts L HL) as Hs.
  split.
  - rewrite (merr_pack_entry e _ 0 l He Hne).
    destruct (merr_pack_shape L HL E e NULL l Hne) as (k & Hk & Hpack & Hnull & _).
    rewrite Hpack, (Hnull eq_refl). rewrite Z.mod_0_l by (apply Z.pow_nonzero; lia).
    reflexivity.
  - destruct (file_off_pack_entry e _ 0 l He Hne) as [Hoff _].
    unfold merr_file. rewrite Hoff. cbn [Z.eqb].
    destruct (_ || _); reflexivity.
Qed.


(** A pointer that is not word aligned is packed as [hse_merr_bug0],
    and decodes to the address of that sentinel. *)
Theorem merr_pack_word_misaligned (e file o l : Z) :
  file <> NULL ->
  IS_ALIGNED (to_u64 file) 8 = false ->
  table_entry L E (hse_merr_bug0 E) o ->
  e <> 0 -> - 2 ^ 31 < e < 2 ^ 31 ->
  merr_pack L E e file l = merr_pack L E e (hse_merr_bug0 E) l
  /\ merr_file_candidate L E (merr_file_off L (merr_pack L E e file l))
     = hse_merr_bug0 E.
Proof.
  intros Hf Hmis Hb Hne _.
  pose proof (entry_ptr L E _ o Hb) as Hptr.
  assert (merr_pack L E e file l = merr_pack L E e (hse_merr_bug0 E) l) as Heq.
  { unfold merr_pack, merr_pack_word_checked.
    destruct (Z.eqb_spec e 0); [reflexivity|].
    destruct (Z.eqb_spec file NULL); [contradiction|].
    destruct (Z.eqb_spec (hse_merr_bug0 E) NULL) as [Hn|_]; [unfold NULL in Hn; lia|].
    rewrite Hmis. rewrite (to_u64_small (hse_merr_bug0 E)) by lia.
    rewrite (entry_word L E _ o Hb). reflexivity. }
  split; [exact Heq|].
  rewrite Heq. apply (file_off_pack_entry e _ o l Hb Hne).
Qed.

(** A word-aligned pointer that is not aligned to [MERR_ALIGN] is packed
    as [hse_merr_bug1], and decodes to the address of that sentinel. *)
Theorem merr_pack_unit_misaligned (e file o l : Z) :
  file <> NULL ->
  IS_ALIGNED (to_u64 file) 8 = true ->
  outside_libhse E file = false ->
  IS_ALIGNED (to_u64 file) (MERR_ALIGN L) = false ->
  table_entry L E (hse_merr_bug1 E) o ->
  e <> 0 -> - 2 ^ 31 < e < 2 ^ 31 ->
  merr_pack L E e file l = merr_pack L E e (hse_merr_bug1 E) l
  /\ merr_file_candidate L E (merr_file_off L (merr_pack L E e file l))
     = hse_merr_bug1 E.
Proof.
  intros Hf Hw Hin Hmis Hb Hne _.
  pose proof (entry_ptr L E _ o Hb) as Hptr.
  assert (merr_pack L E e file l = merr_pack L E e (hse_merr_bug1 E) l) as Heq.
  { unfold merr_pack, merr_pack_word_checked, merr_pack_unit_checked.
    destruct (Z.eqb_spec e 0); [reflexivity|].
    destruct (Z.eqb_spec file NULL); [contradiction|].
    destruct (Z.eqb_spec (hse_merr_bug1 E) NULL) as [Hn|_]; [unfold NULL in Hn; lia|].
    rewrite Hw. cbn [negb]. rewrite Hin, Hmis. cbn [negb].
    rewrite (to_u64_small (hse_merr_bug1 E)) by lia.
    rewrite (entry_word L E _ o Hb). cbn [negb].
    rewrite (to_u64_small (hse_merr_bug1 E)) by lia.
    rewrite (entry_inside L E _ o Hb), (entry_unit L E _ o Hb). reflexivity. }
  split; [exact Heq|].
  rewrite Heq. apply (file_off_pack_entry e _ o l Hb Hne).
Qed.

End PackLocated.

Lemma demo_entry_file : table_entry hse_layout demo_env 0x600140 1.
Proof. constructor; vm_compute; repeat split; try reflexivity; discriminate. Qed.

Lemma demo_entry_bug0 : table_entry hse_layout demo_env (hse_merr_bug0 demo_env) (-4).
Proof. constructor; vm_compute; repeat split; try reflexivity; discriminate. Qed.

Lemma demo_entry_bug1 : table_entry hse_layout demo_env (hse_merr_bug1 demo_env) (-3).
Proof. constructor; vm_compute; repeat split; try reflexivity; discriminate. Qed.

Lemma demo_entry_base : table_entry hse_layout demo_env (hse_merr_base demo_env) 0.
Proof. constructor; vm_compute; repeat split; try reflexivity; discriminate. Qed.

Lemma merr_file_off_pack_witness :
  layout_ok hse_layout
  /\ table_entry hse_layout demo_env 0x600140 1
  /\ 5 <> 0
  /\ - 2 ^ 31 < 5 < 2 ^ 31
  /\ merr_file_off hse_layout (merr_pack hse_layout demo_env 5 0x600140 10) = 1
  /\ merr_file_candidate hse_layout demo_env
       (merr_file_off hse_layout (merr_pack hse_layout demo_env 5 0x600140 10))
     = 0x600140.
Proof.
  split; [exact hse_layout_ok|]. split; [exact demo_entry_file|].
  split; [discriminate|]. split; [split; reflexivity|].
  apply (merr_file_off_pack hse_layout hse_layout_ok demo_env 5 0x600140 1 10
           demo_entry_file).
  - discriminate.
  - split; reflexivity.
Defined.

Lemma merr_pack_off_too_far_witness :
  layout_ok hse_layout
  /\ 0x871100 <> NULL
  /\ merr_pack_off hse_layout demo_env
       (merr_pack_unit_checked hse_layout demo_env
          (merr_pack_word_checked demo_env 0x871100)) = 40000
  /\ merr_pack hse_layout demo_env 5 0x871100 10
     = merr_pack hse_layout demo_env 5 NULL 10.
Proof.
  split; [exact hse_layout_ok|]. split; [discriminate|].
  split; [reflexivity|].
  apply (merr_pack_off_too_far hse_layout hse_layout_ok demo_env 5 0x871100 10).
  - discriminate.
  - vm_compute. intros [_ H]. discriminate H.
Defined.

Lemma merr_file_pack_base_witness :
  layout_ok hse_layout
  /\ table_entry hse_layout demo_env (hse_merr_base demo_env) 0
  /\ merr_file hse_layout demo_env
       (merr_pack hse_layout demo_env 5 (hse_merr_base demo_env) 10) = NULL.
Proof.
  split; [exact hse_layout_ok|]. split; [exact demo_entry_base|].
  apply (merr_file_pack_base hse_layout hse_layout_ok demo_env 5 10 demo_entry_base).
  - discriminate.
  - split; reflexivity.
Defined.

Lemma merr_pack_word_misaligned_witness :
  layout_ok hse_layout
  /\ IS_ALIGNED (to_u64 0x600141) 8 = false
  /\ table_entry hse_layout demo_env (hse_merr_bug0 demo_env) (-4)
  /\ merr_file_candidate hse_layout demo_env
       (merr_file_off hse_layout (merr_pack hse_layout demo_env 5 0x600141 10))
     = hse_merr_bug0 demo_env.
Proof.
  split; [exact hse_layout_ok|]. split; [reflexivity|]. split; [exact demo_entry_bug0|].
  apply (merr_pack_word_misaligned hse_layout hse_layout_ok demo_env 5 0x600141 (-4) 10).
  - discriminate.
  - reflexivity.
  - exact demo_entry_bug0.
  - discriminate.
  - split; reflexivity.
Defined.

Lemma merr_pack_unit_misaligned_witness :
  layout_ok hse_layout
  /\ IS_ALIGNED (to_u64 0x600148) 8 = true
  /\ IS_ALIGNED (to_u64 0x600148) (MERR_ALIGN hse_layout) = false
  /\ table_entry hse_layout demo_env (hse_merr_bug1 demo_env) (-3)
  /\ merr_file_candidate hse_layout demo_env
       (merr_file_off hse_layout (merr_pack hse_layout demo_env 5 0x600148 10))
     = hse_merr_bug1 demo_env.
Proof.
  split; [exact hse_layout_ok|]. split; [reflexivity|]. split; [reflexivity|].
  split; [exact demo_entry_bug1|].
  apply (merr_pack_unit_misaligned hse_layout hse_layout_ok demo_env 5 0x600148 (-3) 10).
  - discriminate.
  - reflexivity.
  - reflexivity.
  - reflexivity.
  - exact demo_entry_bug1.
  - discriminate.
  - split; reflexivity.
Defined.

(** ** Further properties of the location decoder *)

Lemma slashes_tail (E : merr_env) (p : Z) (n i : nat) :
  0 < p -> p + Z.of_nat n < 2 ^ 64 -> (i < n)%nat ->
  slashes (bytes_at E (p + Z.of_nat i) (n - i))
  = ((if is_slash (mem E (p + Z.of_nat i)) then 1 else 0)
     + slashes (bytes_at E (p + Z.of_nat (S i)) (n - S i)))%nat.
Proof.
  intros Hp Hend Hi.
  replace (n - i)%nat with (S (n - S i)) by lia. cbn [bytes_at slashes].
  rewrite ptr_add_small by lia. do 3 f_equal. lia.
Qed.

Lemma slashes_mono (E : merr_env) (p : Z) (n : nat) :
  0 < p -> p + Z.of_nat n < 2 ^ 64 ->
  forall d i : nat, (i + d <= n)%nat ->
    (slashes (bytes_at E (p + Z.of_nat (i + d)) (n - (i + d)))
     <= slashes (bytes_at E (p + Z.of_nat i) (n - i)))%nat.
Proof.
  intros Hp Hend. induction d as [|d IH]; intros i Hi.
  - rewrite Nat.add_0_r. lia.
  - rewrite (slashes_tail E p n i) by lia.
    replace (i + S d)%nat with (S i + d)%nat by lia.
    specialize (IH (S i)). lia.
Qed.

(** The loop of [merr_file] reaches every index that has at most one
    separator at or after it, and gives up there when the byte is neither
    printable nor NUL. *)
Lemma merr_file_scan_unprintable (E : merr_env) (p : Z) (n idx : nat) :
  0 < p -> p + Z.of_nat n < 2 ^ 64 ->
  (1 <= idx)%nat ->
  unprintable (mem E (p + Z.of_nat idx)) = true ->
  (slashes (bytes_at E (p + Z.of_nat idx) (n - idx)) <= 1)%nat ->
  forall (i : nat) (slash : Z),
    (idx <= i <= n)%nat ->
    slash = Z.of_nat (slashes (bytes_at E (p + Z.of_nat i) (n - i))) ->
    merr_file_scan E i (p + Z.of_nat i) slash = hse_merr_bug2 E.
Proof.
  intros Hp Hend Hidx Hbad Hcnt.
  induction i as [|i IH]; intros slash Hi Hslash; [lia|].
  cbn [merr_file_scan]. fold (unprintable (mem E (p + Z.of_nat (S i)))).
  destruct (unprintable (mem E (p + Z.of_nat (S i)))) eqn:Hprint; [reflexivity|].
  assert (idx <= i)%nat as Hle.
  { destruct (Nat.eq_dec idx (S i)) as [Heq|]; [|lia].
    rewrite Heq in Hbad. congruence. }
  pose proof (slashes_mono E p n Hp Hend (i - idx) idx ltac:(lia)) as Hmono.
  replace (idx + (i - idx))%nat with i in Hmono by lia.
  pose proof (slashes_tail E p n i Hp Hend ltac:(lia)) as Htail.
  rewrite ptr_add_small by lia.
  replace (p + Z.of_nat (S i) + -1) with (p + Z.of_nat i) by lia.
  destruct (is_slash (mem E (p + Z.of_nat i))) eqn:Hsl.
  - rewrite to_int_small by lia.
    destruct (Z.geb_spec (slash + 1) 2); [lia|].
    apply IH; lia.
  - apply IH; lia.
Qed.

Section DecoderScan.

Variable L : merr_layout.
Hypothesis HL : layout_ok L.
Variable E : merr_env.
Hypothesis HE : env_ok L E.

(** For a code with a location, [merr_file] is its loop run over the
    string at the checked candidate address. *)
Lemma merr_file_scans (err : merr_t) :
  err <> 0 -> err <> ALL_ONES -> merr_file_off L err <> 0 ->
  let p := merr_file_checked E (merr_file_candidate L E (merr_file_off L err)) in
  let n := Z.to_nat (strnlen E p (Z.to_nat PATH_MAX)) in
  0 < p /\ p + Z.of_nat n < 2 ^ 64
  /\ merr_file L E err = merr_file_scan E n (p + Z.of_nat n) 0.
Proof.
  intros H0 H1 Hoff p n.
  assert (0 < p /\ p + PATH_MAX < 2 ^ 64) as Hp.
  { subst p. unfold merr_file_checked.
    destruct (outside_libhse E _);
      [exact (ok_bug3 L E HE) | apply (merr_file_candidate_range L HL E HE)]. }
  pose proof (strnlen_range E (Z.to_nat PATH_MAX) p) as Hlen.
  rewrite Z2Nat.id in Hlen by (unfold PATH_MAX; lia).
  split; [lia|]. split; [subst n; rewrite Z2Nat.id by lia; lia|].
  unfold merr_file.
  destruct (Z.eqb_spec err 0); [contradiction|].
  destruct (Z.eqb_spec err ALL_ONES); [contradiction|].
  destruct (Z.eqb_spec (merr_file_off L err) 0); [contradiction|].
  cbn [orb]. fold p. fold n.
  rewrite ptr_add_small by lia.
  subst n. rewrite Z2Nat.id by lia. reflexivity.
Qed.

(** A byte that is neither printable nor NUL, at an index other than 0
    and with at most one separator from it to the end of the string,
    makes [merr_file] return [hse_merr_bug2]. *)
Theorem merr_file_unprintable (err : merr_t) (idx : nat) :
  err <> 0 -> err <> ALL_ONES -> merr_file_off L err <> 0 ->
  let p := merr_file_checked E (merr_file_candidate L E (merr_file_off L err)) in
  let n := Z.to_nat (strnlen E p (Z.to_nat PATH_MAX)) in
  (1 <= idx <= n)%nat ->
  unprintable (mem E (p + Z.of_nat idx)) = true ->
  (slashes (bytes_at E (p + Z.of_nat idx) (n - idx)) <= 1)%nat ->
  merr_file L E err = hse_merr_bug2 E.
Proof.
  intros H0 H1 Hoff p n Hidx Hbad Hcnt.
  destruct (merr_file_scans err H0 H1 Hoff) as (Hp & Hend & Hfile).
  fold p in Hp, Hend, Hfile. fold n in Hend, Hfile.
  rewrite Hfile.
  apply (merr_file_scan_unprintable E p n idx); try assumption; try lia.
  rewrite Nat.sub_diag. reflexivity.
Qed.

End DecoderScan.

Lemma merr_file_last_two_components_witness :
  let err := merr_pack hse_layout demo_env 5 0x600140 10 in
  layout_ok hse_layout /\ env_ok hse_layout demo_env
  /\ err <> 0 /\ err <> ALL_ONES /\ merr_file_off hse_layout err <> 0
  /\ (merr_file hse_layout demo_env err = hse_merr_bug2 demo_env
      \/ exists j : nat,
           merr_file hse_layout demo_env err
           = merr_file_checked demo_env
               (merr_file_candidate hse_layout demo_env (merr_file_off hse_layout err))
             + Z.of_nat j).
Proof.
  cbv zeta.
  assert (merr_pack hse_layout demo_env 5 0x600140 10 <> 0) as H0
    by (vm_compute; discriminate).
  assert (merr_pack hse_layout demo_env 5 0x600140 10 <> ALL_ONES) as H1
    by (vm_compute; discriminate).
  assert (merr_file_off hse_layout (merr_pack hse_layout demo_env 5 0x600140 10) <> 0)
    as H2 by (vm_compute; discriminate).
  split; [exact hse_layout_ok|]. split; [exact demo_env_ok|].
  split; [exact H0|]. split; [exact H1|]. split; [exact H2|].
  destruct (merr_file_last_two_components hse_layout demo_env _
              hse_layout_ok demo_env_ok H0 H1 H2) as [Hb | (j & _ & Hj & _)].
  - left. exact Hb.
  - right. exists j. exact Hj.
Defined.

Lemma merr_file_unprintable_witness :
  let err := merr_pack hse_layout demo_env 5 0x6001c0 10 in
  layout_ok hse_layout /\ env_ok hse_layout demo_env
  /\ unprintable (mem demo_env (0x6001c0 + 1)) = true
  /\ merr_file hse_layout demo_env err = hse_merr_bug2 demo_env.
Proof.
  cbv zeta.
  split; [exact hse_layout_ok|]. split; [exact demo_env_ok|].
  split; [reflexivity|].
  apply (merr_file_unprintable hse_layout hse_layout_ok demo_env demo_env_ok
           (merr_pack hse_layout demo_env 5 0x6001c0 10) 1%nat).
  - vm_compute. discriminate.
  - vm_compute. discriminate.
  - vm_compute. discriminate.
  - vm_compute. split; lia.
  - vm_compute. reflexivity.
  - vm_compute. lia.
Defined.

(** ** Further properties of the formatter *)


Lemma strlen_append (a b : string) : strlen (a ++ b) = strlen a + strlen b.
Proof.
  unfold strlen. induction a as [|ch a IH]; cbn [String.append String.length]; lia.
Qed.

Lemma strlen_take_all (n : Z) (s : string) :
  strlen s <= n -> str_take (Z.to_nat n) s = s.
Proof. intros H. apply str_take_all. unfold strlen in H. lia. Qed.


Section Resolver.

Variable L : merr_layout.
Variable P : platform.
Variable msgs : Z -> option string.
Hypothesis HP : xsi_platform P msgs.


(** The size of a known errno's message. *)
Lemma strerror_known (err : merr_t) (msg buf : string) (buf_sz : Z) :
  merr_errno L err <> EBUG L ->
  msgs (merr_errno L err) = Some msg ->
  strlen msg < 1000 ->
  (buf_sz <= strlen msg -> malloc P 1000 <> None) ->
  0 <= buf_sz ->
  merr_strerror L P err buf buf_sz
  = Some ((if buf_sz =? 0 then buf else str_take (Z.to_nat (buf_sz - 1)) msg),
          strlen msg + 1).
Proof.
  intros Hne Hmsg Hlen Hmalloc Hsz.
  assert (0 <= strlen msg) as Hnn by (unfold strlen; lia).
  unfold merr_strerror.
  destruct (Z.eqb_spec (merr_errno L err) (EBUG L)); [contradiction|].
  rewrite (xsi_known P msgs HP _ msg) by assumption.
  destruct (Z.leb_spec buf_sz (strlen msg)) as [Hsmall | Hbig].
  - change (ERANGE =? 0) with false. change (ERANGE =? EINVAL) with false.
    change (negb (ERANGE =? ERANGE)) with false. cbv iota.
    destruct (malloc P 1000) as [errbuf|]; [|exfalso; apply Hmalloc; auto].
    rewrite (xsi_known P msgs HP _ msg) by assumption.
    change (1000 =? 0) with false. cbv iota.
    rewrite (strlen_take_all (1000 - 1) msg) by lia.
    unfold strlcpy. rewrite to_u64_small by lia.
    destruct (buf_sz =? 0); do 2 f_equal; lia.
  - change (0 =? 0) with true. cbv iota.
    destruct (Z.eqb_spec buf_sz 0); [lia|].
    rewrite (strlen_take_all (buf_sz - 1) msg) by lia.
    rewrite to_u64_small by lia. do 2 f_equal. lia.
Qed.

(** A known errno: [merr_strerror] returns the length of its message plus
    one for the terminator whether the buffer is large enough or not, and
    leaves in the buffer as much of the message as fits. *)
Theorem merr_strerror_known (err : merr_t) (msg buf : string) (buf_sz : Z) :
  merr_errno L err <> EBUG L ->
  msgs (merr_errno L err) = Some msg ->
  strlen msg < 1000 ->
  (buf_sz <= strlen msg -> malloc P 1000 <> None) ->
  0 <= buf_sz ->
  merr_strerror L P err buf buf_sz
  = Some ((if buf_sz =? 0 then buf else str_take (Z.to_nat (buf_sz - 1)) msg),
          strlen msg + 1).
Proof. apply strerror_known. Qed.

(** An errno the platform does not know: the buffer holds the fixed text
    "<invalid error code>", cut to the buffer, and the size returned is
    its length plus one. *)
Theorem merr_strerror_unknown (err : merr_t) (buf : string) (buf_sz : Z) :
  merr_errno L err <> EBUG L ->
  msgs (merr_errno L err) = None ->
  0 < buf_sz ->
  merr_strerror L P err buf buf_sz
  = Some (str_take (Z.to_nat (buf_sz - 1)) "<invalid error code>",
          strlen "<invalid error code>" + 1).
Proof.
  intros Hne Hmsg Hsz. unfold merr_strerror.
  destruct (Z.eqb_spec (merr_errno L err) (EBUG L)); [contradiction|].
  pose proof (xsi_unknown P msgs HP (merr_errno L err) buf buf_sz Hmsg) as Hrc.
  destruct (strerror_r P (merr_errno L err) buf buf_sz) as [rc buf1].
  cbn [fst] in Hrc. subst rc.
  change (EINVAL =? 0) with false. change (EINVAL =? EINVAL) with true. cbv iota.
  unfold strlcpy. destruct (Z.eqb_spec buf_sz 0); [lia|]. reflexivity.
Qed.

(** The scratch buffer cannot be obtained: the buffer holds the fixed
    text "<error formating error message>", cut to the buffer, and the
    size returned is the length of that text, without the terminator. *)
Theorem merr_strerror_no_memory (err : merr_t) (msg buf : string) (buf_sz : Z) :
  merr_errno L err <> EBUG L ->
  msgs (merr_errno L err) = Some msg ->
  0 < buf_sz <= strlen msg ->
  malloc P 1000 = None ->
  merr_strerror L P err buf buf_sz
  = Some (str_take (Z.to_nat (buf_sz - 1)) "<error formating error message>",
          strlen "<error formating error message>").
Proof.
  intros Hne Hmsg Hsz Hmalloc. unfold merr_strerror.
  destruct (Z.eqb_spec (merr_errno L err) (EBUG L)); [contradiction|].
  rewrite (xsi_known P msgs HP _ msg) by assumption.
  destruct (Z.leb_spec buf_sz (strlen msg)); [|lia].
  change (ERANGE =? 0) with false. change (ERANGE =? EINVAL) with false.
  change (negb (ERANGE =? ERANGE)) with false. cbv iota.
  rewrite Hmalloc. unfold strlcpy.
  destruct (Z.eqb_spec buf_sz 0); [lia|]. reflexivity.
Qed.

End Resolver.


Section Formatter.

Variable L : merr_layout.
Variable E : merr_env.
Variable P : platform.


Lemma strinfo_success_eq (buf : string) (buf_sz : Z) :
  0 < buf_sz ->
  merr_strinfo L E P 0 buf buf_sz
  = Some {| out_buf := str_take (Z.to_nat (buf_sz - 1)) "success";
            out_need_sz := None |}.
Proof.
  intros Hsz. unfold merr_strinfo, snprintf. cbn [Z.eqb].
  change (INT_MAX <? strlen "success") with false. cbv iota.
  destruct (Z.eqb_spec buf_sz 0); [lia|]. reflexivity.
Qed.

(** The code [0] is formatted as "success", cut to the buffer; nothing is
    stored through [need_sz]. *)
Theorem merr_strinfo_success (buf : string) (buf_sz : Z) :
  0 < buf_sz ->
  merr_strinfo L E P 0 buf buf_sz
  = Some {| out_buf := str_take (Z.to_nat (buf_sz - 1)) "success";
            out_need_sz := None |}
  /\ (strlen "success" < buf_sz ->
      merr_strinfo L E P 0 buf buf_sz
      = Some {| out_buf := "success"; out_need_sz := None |}).
Proof.
  intros Hsz. split; [apply strinfo_success_eq; assumption|].
  intros Hbig. rewrite strinfo_success_eq, strlen_take_all by lia. reflexivity.
Qed.

(** A value is stored through [need_sz] exactly when the pointer is not
    [NULL] and the code is one this file formats itself: nonzero, with
    the reserved bit set.  Through a [NULL] pointer, for the code [0] and
    for the codes handed to [mpool_strinfo] nothing is stored. *)
Theorem merr_strinfo_need_sz
  (err : merr_t) (buf : string) (buf_sz need_sz : Z) (r : strinfo) :
  merr_strinfo L E P err buf buf_sz = Some r ->
  (need_sz_stored need_sz r <> None
   <-> need_sz <> NULL /\ err <> 0 /\ Z.land err (MERR_RSVD_MASK L) <> 0).
Proof.
  intros Hr.
  assert (out_need_sz r <> None <-> err <> 0 /\ Z.land err (MERR_RSVD_MASK L) <> 0)
    as Hout.
  { revert Hr. unfold merr_strinfo.
    destruct (Z.eqb_spec err 0) as [H0 | H0].
    { intros [= <-]. cbn [out_need_sz]. split; [congruence | intros [? _]; contradiction]. }
    destruct (Z.eqb_spec (Z.land err (MERR_RSVD_MASK L)) 0) as [H1 | H1].
    { intros [= <-]. cbn [out_need_sz]. split; [congruence | intros [_ ?]; contradiction]. }
    destruct (merr_strinfo_prefix L E err buf buf_sz) as [b sz].
    destruct (sz <? 0).
    { intros [= <-]. cbn [out_need_sz]. split; [auto | discriminate]. }
    destruct (to_u64 sz >=? buf_sz).
    { intros [= <-]. cbn [out_need_sz]. split; [auto | discriminate]. }
    destruct (merr_strerror L P err _ _) as [[text ret]|]; [|discriminate].
    intros [= <-]. cbn [out_need_sz]. split; [auto | discriminate]. }
  unfold need_sz_stored. destruct (Z.eqb_spec need_sz NULL) as [Hnull | Hptr].
  - split; [congruence | intros [? _]; contradiction].
  - rewrite Hout. tauto.
Qed.

(** A code whose errno is [EBUG]: the size stored through [need_sz] is
    the length of the prefix plus the length of "HSE software bug"; the
    terminator is not counted. *)
Theorem merr_strinfo_ebug_need_sz (err : merr_t) (buf b : string) (buf_sz sz : Z) :
  err <> 0 ->
  Z.land err (MERR_RSVD_MASK L) <> 0 ->
  merr_errno L err = EBUG L ->
  merr_strinfo_prefix L E err buf buf_sz = (b, sz) ->
  0 <= sz < buf_sz ->
  buf_sz < 2 ^ 64 ->
  sz + strlen "HSE software bug" <= INT_MAX ->
  merr_strinfo L E P err buf buf_sz
  = Some {| out_buf := (str_take (Z.to_nat sz) b
                        ++ str_take (Z.to_nat (buf_sz - sz - 1)) "HSE software bug")%string;
            out_need_sz := Some (sz + strlen "HSE software bug") |}.
Proof.
  intros H0 H1 Herrno Hpfx Hsz Hmax Hint.
  change (strlen "HSE software bug") with 16 in *. unfold INT_MAX in Hint.
  unfold merr_strinfo.
  destruct (Z.eqb_spec err 0); [contradiction|].
  destruct (Z.eqb_spec (Z.land err (MERR_RSVD_MASK L)) 0); [contradiction|].
  rewrite Hpfx.
  destruct (Z.ltb_spec sz 0); [lia|].
  rewrite to_u64_small by lia.
  destruct (Z.geb_spec sz buf_sz); [lia|].
  unfold merr_strerror. rewrite Herrno, Z.eqb_refl.
  unfold strlcpy. rewrite (to_u64_small (buf_sz - sz)) by lia.
  destruct (Z.eqb_spec (buf_sz - sz) 0); [lia|].
  change (strlen "HSE software bug") with 16.
  rewrite (to_int_small 16) by lia.
  rewrite to_int_small by lia. rewrite to_u64_small by lia.
  reflexivity.
Qed.

(** The location cannot be formatted ([snprintf] fails): the buffer holds
    the fixed text "<error formating error message>", cut to the buffer,
    and the length of that text is stored through [need_sz]. *)
Theorem merr_strinfo_prefix_fails (err : merr_t) (buf : string) (buf_sz : Z) :
  err <> 0 ->
  Z.land err (MERR_RSVD_MASK L) <> 0 ->
  merr_file L E err <> NULL ->
  location_prefix E (merr_file L E err) (merr_lineno L err) = None ->
  0 < buf_sz ->
  merr_strinfo L E P err buf buf_sz
  = Some {| out_buf := str_take (Z.to_nat (buf_sz - 1)) "<error formating error message>";
            out_need_sz := Some (strlen "<error formating error message>") |}.
Proof.
  intros H0 H1 Hfile Hpfx Hsz.
  unfold merr_strinfo, merr_strinfo_prefix.
  destruct (Z.eqb_spec err 0); [contradiction|].
  destruct (Z.eqb_spec (Z.land err (MERR_RSVD_MASK L)) 0); [contradiction|].
  destruct (Z.eqb_spec (merr_file L E err) NULL); [contradiction|].
  rewrite Hpfx. cbn [snprintf]. change (-1 <? 0) with true. cbv iota.
  unfold strlcpy. destruct (Z.eqb_spec buf_sz 0); [lia|]. reflexivity.
Qed.

Variable msgs : Z -> option string.
Hypothesis HP : xsi_platform P msgs.


Lemma strinfo_known (err : merr_t) (msg buf b : string) (buf_sz sz : Z) :
  err <> 0 ->
  Z.land err (MERR_RSVD_MASK L) <> 0 ->
  merr_errno L err <> EBUG L ->
  msgs (merr_errno L err) = Some msg ->
  strlen msg < 1000 ->
  (buf_sz - sz <= strlen msg -> malloc P 1000 <> None) ->
  merr_strinfo_prefix L E err buf buf_sz = (b, sz) ->
  0 <= sz < buf_sz ->
  buf_sz < 2 ^ 64 ->
  sz + strlen msg < INT_MAX ->
  merr_strinfo L E P err buf buf_sz
  = Some {| out_buf := (str_take (Z.to_nat sz) b
                        ++ str_take (Z.to_nat (buf_sz - sz - 1)) msg)%string;
            out_need_sz := Some (sz + strlen msg + 1) |}.
Proof.
  intros H0 H1 Hne Hmsg Hlen Hmalloc Hpfx Hsz Hmax Hint.
  assert (0 <= strlen msg) by (unfold strlen; lia).
  unfold INT_MAX in Hint.
  unfold merr_strinfo.
  destruct (Z.eqb_spec err 0); [contradiction|].
  destruct (Z.eqb_spec (Z.land err (MERR_RSVD_MASK L)) 0); [contradiction|].
  rewrite Hpfx.
  destruct (Z.ltb_spec sz 0); [lia|].
  rewrite to_u64_small by lia.
  destruct (Z.geb_spec sz buf_sz); [lia|].
  rewrite (to_u64_small (buf_sz - sz)) by lia.
  rewrite (strerror_known L P msgs HP err msg) by (auto; lia).
  destruct (Z.eqb_spec (buf_sz - sz) 0); [lia|].
  rewrite (to_int_small (strlen msg + 1)) by lia.
  rewrite to_int_small by lia. rewrite to_u64_small by lia.
  do 3 f_equal. lia.
Qed.

(** A located code with a known errno: the buffer holds the prefix
    followed by as much of the message as fits, and the size stored
    through [need_sz] is exactly what the whole text needs with its
    terminator, whether the message was cut or not. *)
Theorem merr_strinfo_known (err : merr_t) (msg buf b : string) (buf_sz sz : Z) :
  err <> 0 ->
  Z.land err (MERR_RSVD_MASK L) <> 0 ->
  merr_errno L err <> EBUG L ->
  msgs (merr_errno L err) = Some msg ->
  strlen msg < 1000 ->
  malloc P 1000 <> None ->
  merr_strinfo_prefix L E err buf buf_sz = (b, sz) ->
  0 <= sz < buf_sz ->
  buf_sz < 2 ^ 64 ->
  sz + strlen msg < INT_MAX ->
  merr_strinfo L E P err buf buf_sz
  = Some {| out_buf := (str_take (Z.to_nat sz) b
                        ++ str_take (Z.to_nat (buf_sz - sz - 1)) msg)%string;
            out_need_sz := Some (sz + strlen msg + 1) |}.
Proof. intros; apply strinfo_known; auto. Qed.

End Formatter.

(** ** The concrete platforms and the endless image *)

Lemma demo_platform_xsi : xsi_platform demo_platform demo_msgs.
Proof.
  constructor.
  - intros errnum msg buf buflen Hmsg. unfold demo_msgs in Hmsg. cbn [demo_platform strerror_r].
    destruct (errnum =? 2); [|discriminate]. injection Hmsg as <-. reflexivity.
  - intros errnum buf buflen Hmsg. unfold demo_msgs in Hmsg. cbn [demo_platform strerror_r].
    destruct (errnum =? 2); [discriminate|]. reflexivity.
Qed.

Lemma demo_platform_oom_xsi : xsi_platform demo_platform_oom demo_msgs.
Proof.
  constructor.
  - intros errnum msg buf buflen Hmsg.
    exact (xsi_known demo_platform demo_msgs demo_platform_xsi errnum msg buf buflen Hmsg).
  - intros errnum buf buflen Hmsg.
    exact (xsi_unknown demo_platform demo_msgs demo_platform_xsi errnum buf buflen Hmsg).
Qed.

Lemma first_index_none (f : Z -> bool) :
  (forall j, f j = false) ->
  forall (fuel : positive) (i : Z), first_index f fuel i = inl (i + Z.pos fuel).
Proof.
  intros Hf. induction fuel as [q IH | q IH |]; intros i; cbn [first_index].
  - rewrite Hf, !IH. f_equal. rewrite Pos2Z.inj_xI. lia.
  - rewrite !IH. f_equal. rewrite Pos2Z.inj_xO. lia.
  - rewrite Hf. reflexivity.
Qed.

Lemma location_prefix_endless (p line : Z) :
  location_prefix endless_env p line = None.
Proof.
  unfold location_prefix, cstring_at.
  rewrite first_index_none; [reflexivity|].
  intros j. reflexivity.
Qed.

Lemma merr_strerror_known_witness :
  let err := merr_pack hse_layout demo_env 2 NULL 0 in
  xsi_platform demo_platform demo_msgs
  /\ merr_errno hse_layout err <> EBUG hse_layout
  /\ demo_msgs (merr_errno hse_layout err) = Some "No such file or directory"%string
  /\ merr_strerror hse_layout demo_platform err "" 10
     = Some ("No such f"%string, strlen "No such file or directory" + 1).
Proof.
  cbv zeta. split; [exact demo_platform_xsi|].
  split; [vm_compute; discriminate|]. split; [reflexivity|].
  refine (merr_strerror_known hse_layout demo_platform demo_msgs demo_platform_xsi
            (merr_pack hse_layout demo_env 2 NULL 0)
            "No such file or directory" "" 10 _ _ _ _ _).
  - vm_compute. discriminate.
  - reflexivity.
  - reflexivity.
  - intros _. discriminate.
  - discriminate.
Defined.

Lemma merr_strerror_unknown_witness :
  let err := merr_pack hse_layout demo_env 7 NULL 0 in
  xsi_platform demo_platform demo_msgs
  /\ demo_msgs (merr_errno hse_layout err) = None
  /\ merr_strerror hse_layout demo_platform err "" 8
     = Some ("<invali"%string, 21).
Proof.
  cbv zeta. split; [exact demo_platform_xsi|]. split; [reflexivity|].
  refine (merr_strerror_unknown hse_layout demo_platform demo_msgs demo_platform_xsi
            (merr_pack hse_layout demo_env 7 NULL 0) "" 8 _ _ _).
  - vm_compute. discriminate.
  - reflexivity.
  - reflexivity.
Defined.

Lemma merr_strerror_no_memory_witness :
  let err := merr_pack hse_layout demo_env 2 NULL 0 in
  xsi_platform demo_platform_oom demo_msgs
  /\ malloc demo_platform_oom 1000 = None
  /\ merr_strerror hse_layout demo_platform_oom err "" 10
     = Some ("<error fo"%string, 31).
Proof.
  cbv zeta. split; [exact demo_platform_oom_xsi|]. split; [reflexivity|].
  refine (merr_strerror_no_memory hse_layout demo_platform_oom demo_msgs
            demo_platform_oom_xsi (merr_pack hse_layout demo_env 2 NULL 0)
            "No such file or directory" "" 10 _ _ _ _).
  - vm_compute. discriminate.
  - reflexivity.
  - vm_compute. split; [reflexivity | discriminate].
  - reflexivity.
Defined.

Lemma merr_strinfo_success_witness :
  0 < 100
  /\ merr_strinfo hse_layout demo_env demo_platform 0 "" 100
     = Some {| out_buf := "success"; out_need_sz := None |}.
Proof.
  split; [reflexivity|].
  apply (merr_strinfo_success hse_layout demo_env demo_platform "" 100);
    reflexivity.
Defined.

Lemma merr_strinfo_need_sz_witness :
  let err := merr_pack hse_layout demo_env 2 0x600140 123 in
  merr_strinfo hse_layout demo_env demo_platform err "" 10
  = Some {| out_buf := "src/hse_e"; out_need_sz := Some 219 |}
  /\ (need_sz_stored 0x7ffc0000 {| out_buf := "src/hse_e"; out_need_sz := Some 219 |}
      <> None
      <-> 0x7ffc0000 <> NULL /\ err <> 0
          /\ Z.land err (MERR_RSVD_MASK hse_layout) <> 0)
  /\ (need_sz_stored NULL {| out_buf := "src/hse_e"; out_need_sz := Some 219 |}
      <> None
      <-> NULL <> NULL /\ err <> 0
          /\ Z.land err (MERR_RSVD_MASK hse_layout) <> 0).
Proof.
  cbv zeta.
  assert (merr_strinfo hse_layout demo_env demo_platform
            (merr_pack hse_layout demo_env 2 0x600140 123) "" 10
          = Some {| out_buf := "src/hse_e"; out_need_sz := Some 219 |}) as Hr
    by (vm_compute; reflexivity).
  split; [exact Hr|]. split.
  - exact (merr_strinfo_need_sz hse_layout demo_env demo_platform _ "" 10 0x7ffc0000 _ Hr).
  - exact (merr_strinfo_need_sz hse_layout demo_env demo_platform _ "" 10 NULL _ Hr).
Defined.

Lemma merr_strinfo_ebug_need_sz_witness :
  let err := merr_pack hse_layout demo_env (EBUG hse_layout) 0x600140 123 in
  merr_errno hse_layout err = EBUG hse_layout
  /\ merr_strinfo_prefix hse_layout demo_env err "" 64 = ("src/hse_err.c:123: "%string, 19)
  /\ merr_strinfo hse_layout demo_env demo_platform err "" 64
     = Some {| out_buf := "src/hse_err.c:123: HSE software bug";
               out_need_sz := Some 35 |}.
Proof.
  cbv zeta. split; [reflexivity|]. split; [vm_compute; reflexivity|].
  refine (merr_strinfo_ebug_need_sz hse_layout demo_env demo_platform
            (merr_pack hse_layout demo_env (EBUG hse_layout) 0x600140 123)
            "" "src/hse_err.c:123: " 64 19 _ _ _ _ _ _ _).
  - vm_compute. discriminate.
  - vm_compute. discriminate.
  - reflexivity.
  - vm_compute. reflexivity.
  - vm_compute. split; [discriminate | reflexivity].
  - reflexivity.
  - vm_compute. discriminate.
Defined.

Lemma merr_strinfo_prefix_fails_witness :
  let err := merr_pack hse_layout endless_env 5 0x600140 10 in
  merr_file hse_layout endless_env err <> NULL
  /\ location_prefix endless_env (merr_file hse_layout endless_env err)
       (merr_lineno hse_layout err) = None
  /\ merr_strinfo hse_layout endless_env demo_platform err "" 16
     = Some {| out_buf := "<error formatin"; out_need_sz := Some 31 |}.
Proof.
  cbv zeta.
  assert (merr_file hse_layout endless_env
            (merr_pack hse_layout endless_env 5 0x600140 10) <> NULL) as Hfile
    by (vm_compute; discriminate).
  split; [exact Hfile|]. split; [apply location_prefix_endless|].
  refine (merr_strinfo_prefix_fails hse_layout endless_env demo_platform
            (merr_pack hse_layout endless_env 5 0x600140 10) "" 16 _ _ Hfile _ _).
  - vm_compute. discriminate.
  - vm_compute. discriminate.
  - apply location_prefix_endless.
  - reflexivity.
Defined.


Lemma merr_strinfo_known_witness :
  let err := merr_pack hse_layout demo_env 2 0x600140 123 in
  xsi_platform demo_platform demo_msgs
  /\ demo_msgs (merr_errno hse_layout err) = Some "No such file or directory"%string
  /\ merr_strinfo_prefix hse_layout demo_env err "" 30 = ("src/hse_err.c:123: "%string, 19)
  /\ merr_strinfo hse_layout demo_env demo_platform err "" 30
     = Some {| out_buf := "src/hse_err.c:123: No such fi"; out_need_sz := Some 45 |}.
Proof.
  cbv zeta. split; [exact demo_platform_xsi|]. split; [reflexivity|].
  split; [vm_compute; reflexivity|].
  refine (merr_strinfo_known hse_layout demo_env demo_platform demo_msgs
            demo_platform_xsi (merr_pack hse_layout demo_env 2 0x600140 123)
            "No such file or directory" "" "src/hse_err.c:123: " 30 19
            _ _ _ _ _ _ _ _ _ _).
  - vm_compute. discriminate.
  - vm_compute. discriminate.
  - vm_compute. discriminate.
  - reflexivity.
  - reflexivity.
  - discriminate.
  - vm_compute. reflexivity.
  - vm_compute. split; [discriminate | reflexivity].
  - reflexivity.
  - reflexivity.
Defined.

(** ** The cut of a path and the whole message *)

(** The loop does not give up on a string whose bytes, the first one
    apart, are printable or NUL: it stops at the cut. *)
Lemma merr_file_scan_printable (E : merr_env) (p : Z) (n : nat) :
  0 < p -> p + Z.of_nat n < 2 ^ 64 ->
  (forall idx : nat, (1 <= idx <= n)%nat ->
     unprintable (mem E (p + Z.of_nat idx)) = false) ->
  forall (i : nat) (slash : Z),
    (i <= n)%nat ->
    slash = Z.of_nat (slashes (bytes_at E (p + Z.of_nat i) (n - i))) ->
    slash <= 1 ->
    exists j : nat,
      (j <= i)%nat
      /\ merr_file_scan E i (p + Z.of_nat i) slash = p + Z.of_nat j
      /\ ((j = 0%nat /\ (slashes (bytes_at E p n) <= 1)%nat)
          \/ ((0 < j)%nat
              /\ is_slash (mem E (p + Z.of_nat j - 1)) = true
              /\ slashes (bytes_at E (p + Z.of_nat j) (n - j)) = 1%nat)).
Proof.
  intros Hp Hend Hok. induction i as [|i IH]; intros slash Hi Hslash Hle.
  - exists 0%nat. cbn [merr_file_scan].
    split; [lia|]. split; [reflexivity|]. left. split; [reflexivity|].
    rewrite Nat.sub_0_r, Z.add_0_r in Hslash. lia.
  - cbn [merr_file_scan]. fold (unprintable (mem E (p + Z.of_nat (S i)))).
    rewrite Hok by lia.
    rewrite ptr_add_small by lia.
    replace (p + Z.of_nat (S i) + -1) with (p + Z.of_nat i) by lia.
    pose proof (slashes_tail E p n i Hp Hend ltac:(lia)) as Htail.
    assert (0 <= slash) as Hnn by lia.
    destruct (is_slash (mem E (p + Z.of_nat i))) eqn:Hsl.
    + rewrite to_int_small by lia.
      destruct (Z.geb_spec (slash + 1) 2) as [Hge | Hlt].
      * exists (S i). split; [lia|]. split; [reflexivity|]. right.
        split; [lia|]. split.
        { replace (p + Z.of_nat (S i) - 1) with (p + Z.of_nat i) by lia. exact Hsl. }
        lia.
      * destruct (IH (slash + 1)) as (j & Hj & Hr & Hcut); [lia | lia | lia |].
        exists j. split; [lia|]. split; [exact Hr | exact Hcut].
    + destruct (IH slash) as (j & Hj & Hr & Hcut); [lia | lia | lia |].
      exists j. split; [lia|]. split; [exact Hr | exact Hcut].
Qed.

(** [strnlen] stops at the first NUL. *)
Lemma strnlen_spec (E : merr_env) (maxlen : nat) (s : Z) :
  0 <= s -> s + Z.of_nat maxlen < 2 ^ 64 ->
  (forall k, 0 <= k < strnlen E s maxlen -> is_nul (mem E (s + k)) = false)
  /\ (strnlen E s maxlen < Z.of_nat maxlen ->
      is_nul (mem E (s + strnlen E s maxlen)) = true).
Proof.
  revert s. induction maxlen as [|m IH]; intros s Hs Hend.
  - cbn [strnlen]. split; [intros k Hk; lia | intros H; cbn in H; lia].
  - cbn [strnlen]. destruct (is_nul (mem E s)) eqn:Hnul.
    + split; [intros k Hk; lia|]. intros _. rewrite Z.add_0_r. exact Hnul.
    + rewrite ptr_add_small by lia.
      destruct (IH (s + 1)) as [Hbefore Hat]; [lia | lia |].
      pose proof (strnlen_range E m (s + 1)) as Hr.
      split.
      * intros k Hk. destruct (Z.eq_dec k 0) as [-> | Hk0].
        { rewrite Z.add_0_r. exact Hnul. }
        replace (s + k) with (s + 1 + (k - 1)) by lia. apply Hbefore. lia.
      * intros Hlt. replace (s + (1 + strnlen E (s + 1) m))
          with (s + 1 + strnlen E (s + 1) m) by lia.
        apply Hat. lia.
Qed.

Lemma first_index_none_range (f : Z -> bool) (fuel : positive) :
  forall i : Z,
    (forall k, i <= k < i + Z.pos fuel -> f k = false) ->
    first_index f fuel i = inl (i + Z.pos fuel).
Proof.
  induction fuel as [q IH | q IH |]; intros i Hf; cbn [first_index].
  - rewrite Pos2Z.inj_xI in Hf.
    rewrite (Hf i) by lia.
    rewrite (IH (i + 1)) by (intros k Hk; apply Hf; lia).
    rewrite IH by (intros k Hk; apply Hf; lia).
    f_equal. rewrite Pos2Z.inj_xI. lia.
  - rewrite Pos2Z.inj_xO in Hf.
    rewrite (IH i) by (intros k Hk; apply Hf; lia).
    rewrite IH by (intros k Hk; apply Hf; lia).
    f_equal. rewrite Pos2Z.inj_xO. lia.
  - rewrite (Hf i) by lia. reflexivity.
Qed.

Lemma first_index_found (f : Z -> bool) (j : Z) (fuel : positive) :
  f j = true ->
  forall i : Z,
    i <= j < i + Z.pos fuel ->
    (forall k, i <= k < j -> f k = false) ->
    first_index f fuel i = inr j.
Proof.
  intros Hj. induction fuel as [q IH | q IH |]; intros i Hi Hf; cbn [first_index].
  - rewrite Pos2Z.inj_xI in Hi.
    destruct (Z.eq_dec i j) as [-> | Hne]; [rewrite Hj; reflexivity|].
    rewrite (Hf i) by lia.
    destruct (Z_lt_le_dec j (i + 1 + Z.pos q)) as [Hlo | Hhi].
    + rewrite (IH (i + 1)); [reflexivity | lia | intros k Hk; apply Hf; lia].
    + rewrite (first_index_none_range f q (i + 1)) by (intros k Hk; apply Hf; lia).
      apply IH; [lia | intros k Hk; apply Hf; lia].
  - rewrite Pos2Z.inj_xO in Hi.
    destruct (Z_lt_le_dec j (i + Z.pos q)) as [Hlo | Hhi].
    + rewrite (IH i); [reflexivity | lia | intros k Hk; apply Hf; lia].
    + rewrite (first_index_none_range f q i) by (intros k Hk; apply Hf; lia).
      apply IH; [lia | intros k Hk; apply Hf; lia].
  - assert (i = j) as -> by lia. rewrite Hj. reflexivity.
Qed.

(** The string [printf] reads at [p] when the first NUL is [m] bytes
    further. *)
Lemma cstring_at_terminated (E : merr_env) (p m : Z) :
  0 <= p -> 0 <= m <= INT_MAX -> p + m < 2 ^ 64 ->
  is_nul (mem E (p + m)) = true ->
  (forall k, 0 <= k < m -> is_nul (mem E (p + k)) = false) ->
  cstring_at E p = Some (bytes_at E p (Z.to_nat m)).
Proof.
  intros Hp Hm Hend Hnul Hbefore. unfold INT_MAX in Hm. unfold cstring_at.
  rewrite (first_index_found _ m); [reflexivity | | |].
  - cbv beta. rewrite ptr_add_small by lia. exact Hnul.
  - change (Z.pos (Z.to_pos (INT_MAX + 1))) with 2147483648. lia.
  - intros k Hk. cbv beta. rewrite ptr_add_small by lia. apply Hbefore. lia.
Qed.

Lemma str_append_assoc (a b c : string) : ((a ++ b) ++ c = a ++ (b ++ c))%string.
Proof. induction a as [|ch a IH]; cbn; [reflexivity | rewrite IH; reflexivity]. Qed.

Section PackAndFormat.

Variable L : merr_layout.
Hypothesis HL : layout_ok L.
Variable E : merr_env.
Hypothesis HE : env_ok L E.

Local Abbreviation FS := (MERR_FILE_SHIFT L).
Local Abbreviation LS := (MERR_LINE_SHIFT L).

(** The code of a table entry other than the base is a code with a
    location, and [merr_file] scans the string that was packed. *)
Lemma merr_file_pack_scans (e file o l : Z) :
  table_entry L E file o -> e <> 0 -> o <> 0 ->
  merr_pack L E e file l <> ALL_ONES ->
  let n := Z.to_nat (strnlen E file (Z.to_nat PATH_MAX)) in
  0 < file /\ file + Z.of_nat n < 2 ^ 64
  /\ file + PATH_MAX < 2 ^ 64
  /\ merr_pack L E e file l <> 0
  /\ merr_file L E (merr_pack L E e file l) = merr_file_scan E n (file + Z.of_nat n) 0.
Proof.
  intros He Hne Ho Hall n.
  destruct (file_off_pack_entry L HL E e file o l He Hne) as [Hoff Hcand].
  destruct (merr_pack_shape L HL E e file l Hne) as (k & Hk & Hpack & _).
  assert (merr_pack L E e file l <> 0) as Hnz.
  { rewrite Hpack.
    pose proof (fields_range L HL k _ _ Hk (line_field_range L HL l)
                  (errno_field_range L HL (Z.abs e))). lia. }
  assert (merr_file_off L (merr_pack L E e file l) <> 0) as Hoff0 by lia.
  destruct (merr_file_scans L HL E HE _ Hnz Hall Hoff0) as (Hp & Hend & Hfile).
  rewrite Hcand in Hp, Hend, Hfile.
  unfold merr_file_checked in Hp, Hend, Hfile.
  rewrite (entry_inside L E file o He) in Hp, Hend, Hfile.
  fold n in Hend, Hfile.
  pose proof (merr_file_candidate_range L HL E HE (merr_pack L E e file l)) as [_ Hroom].
  rewrite Hcand in Hroom. auto.
Qed.

Lemma file_pack_printable (e file o l : Z) :
  table_entry L E file o -> e <> 0 -> o <> 0 ->
  merr_pack L E e file l <> ALL_ONES ->
  let n := Z.to_nat (strnlen E file (Z.to_nat PATH_MAX)) in
  Z.of_nat n < PATH_MAX ->
  (forall idx : nat, (1 <= idx < n)%nat ->
     unprintable (mem E (file + Z.of_nat idx)) = false) ->
  exists j : nat,
    (j <= n)%nat
    /\ merr_file L E (merr_pack L E e file l) = file + Z.of_nat j
    /\ ((j = 0%nat /\ (slashes (bytes_at E file n) <= 1)%nat)
        \/ ((0 < j)%nat
            /\ is_slash (mem E (file + Z.of_nat j - 1)) = true
            /\ slashes (bytes_at E (file + Z.of_nat j) (n - j)) = 1%nat)).
Proof.
  intros He Hne Ho Hall n Hterm Hok.
  destruct (merr_file_pack_scans e file o l He Hne Ho Hall) as (Hp & Hend & Hroom & _ & Hfile).
  fold n in Hend, Hfile. rewrite Hfile.
  assert (is_nul (mem E (file + Z.of_nat n)) = true) as Hnul.
  { destruct (strnlen_spec E (Z.to_nat PATH_MAX) file) as [_ Hat];
      [lia | rewrite Z2Nat.id by (unfold PATH_MAX; lia); exact Hroom | ].
    pose proof (strnlen_range E (Z.to_nat PATH_MAX) file) as Hr.
    subst n. rewrite Z2Nat.id in Hterm |- * by lia.
    apply Hat. rewrite Z2Nat.id by (unfold PATH_MAX; lia). exact Hterm. }
  apply (merr_file_scan_printable E file n Hp Hend);
    [| lia | rewrite Nat.sub_diag; reflexivity | lia].
  intros idx Hidx. destruct (Nat.eq_dec idx n) as [-> | Hlt].
  - unfold unprintable. rewrite Hnul. reflexivity.
  - apply Hok. lia.
Qed.

(** A printable path is cut to its last two components: for a table
    entry whose string ends within [PATH_MAX] bytes and, the first byte
    apart, is printable, [merr_file] never answers with a sentinel; it
    returns the start of the string when there is at most one separator
    and the byte after the last separator but one otherwise. *)
Theorem merr_file_pack_printable (e file o l : Z) :
  table_entry L E file o -> e <> 0 -> - 2 ^ 31 < e < 2 ^ 31 -> o <> 0 ->
  merr_pack L E e file l <> ALL_ONES ->
  let n := Z.to_nat (strnlen E file (Z.to_nat PATH_MAX)) in
  Z.of_nat n < PATH_MAX ->
  (forall idx : nat, (1 <= idx < n)%nat ->
     unprintable (mem E (file + Z.of_nat idx)) = false) ->
  exists j : nat,
    (j <= n)%nat
    /\ merr_file L E (merr_pack L E e file l) = file + Z.of_nat j
    /\ ((j = 0%nat /\ (slashes (bytes_at E file n) <= 1)%nat)
        \/ ((0 < j)%nat
            /\ is_slash (mem E (file + Z.of_nat j - 1)) = true
            /\ slashes (bytes_at E (file + Z.of_nat j) (n - j)) = 1%nat)).
Proof. intros He Hne _. apply file_pack_printable; assumption. Qed.

End PackAndFormat.

Section EndToEnd.

Variable L : merr_layout.
Hypothesis HL : layout_ok L.
Variable E : merr_env.
Hypothesis HE : env_ok L E.
Variable P : platform.
Variable msgs : Z -> option string.
Hypothesis HP : xsi_platform P msgs.

(** From the call site to the message: the code of a table entry with a
    printable path and an errno the platform knows is formatted, in a
    buffer that is large enough, as the last two components of the path,
    the line and the platform's message, "file:line: message"; and the
    size stored through [need_sz] is the length of that text plus one. *)
Theorem merr_strinfo_pack (e file o l : Z) (msg : string) :
  table_entry L E file o -> e <> 0 -> o <> 0 ->
  merr_pack L E e file l <> ALL_ONES ->
  Z.abs e <= MERR_ERRNO_MASK L ->
  Z.abs e <> EBUG L ->
  msgs (Z.abs e) = Some msg ->
  strlen msg < 1000 ->
  0 <= l < 2 ^ (MERR_FILE_SHIFT L - MERR_LINE_SHIFT L) ->
  let n := Z.to_nat (strnlen E file (Z.to_nat PATH_MAX)) in
  Z.of_nat n < PATH_MAX ->
  (forall idx : nat, (1 <= idx < n)%nat ->
     unprintable (mem E (file + Z.of_nat idx)) = false) ->
  exists j : nat,
    (j <= n)%nat
    /\ ((j = 0%nat /\ (slashes (bytes_at E file n) <= 1)%nat)
        \/ ((0 < j)%nat
            /\ is_slash (mem E (file + Z.of_nat j - 1)) = true
            /\ slashes (bytes_at E (file + Z.of_nat j) (n - j)) = 1%nat))
    /\ forall (buf : string) (buf_sz : Z),
         let text := (bytes_at E (file + Z.of_nat j) (n - j)
                      ++ ":" ++ fmt_int l ++ ": " ++ msg)%string in
         strlen text < buf_sz -> buf_sz <= INT_MAX ->
         merr_strinfo L E P (merr_pack L E e file l) buf buf_sz
         = Some {| out_buf := text; out_need_sz := Some (strlen text + 1) |}.
Proof.
  intros He Hne Ho Hall Hmask Hebug Hmsg Hlen Hl n Hterm Hok.
  pose proof (layout_shifts L HL) as Hs.
  destruct (file_pack_printable L HL E HE e file o l He Hne Ho Hall Hterm Hok)
    as (j & Hj & Hfile & Hcut).
  destruct (merr_file_pack_scans L HL E HE e file o l He Hne Ho Hall)
    as (Hp & Hend & Hroom & Hnz & _).
  fold n in Hend.
  exists j. split; [exact Hj|]. split; [exact Hcut|].
  intros buf buf_sz text Hbig Hint.
  set (err := merr_pack L E e file l) in *.
  (* the string behind the cut *)
  pose proof (strnlen_range E (Z.to_nat PATH_MAX) file) as Hr.
  destruct (strnlen_spec E (Z.to_nat PATH_MAX) file) as [Hbefore Hat];
    [lia | rewrite Z2Nat.id by (unfold PATH_MAX; lia); exact Hroom |].
  rewrite Z2Nat.id in Hat, Hr by (unfold PATH_MAX; lia).
  assert (Z.of_nat n = strnlen E file (Z.to_nat PATH_MAX)) as Hn
    by (subst n; rewrite Z2Nat.id by lia; reflexivity).
  rewrite <- Hn in Hat, Hbefore, Hr.
  assert (cstring_at E (file + Z.of_nat j) = Some (bytes_at E (file + Z.of_nat j) (n - j)))
    as Hstr.
  { rewrite (cstring_at_terminated E (file + Z.of_nat j) (Z.of_nat (n - j))).
    - rewrite Nat2Z.id. reflexivity.
    - lia.
    - unfold INT_MAX, PATH_MAX in *. lia.
    - lia.
    - replace (file + Z.of_nat j + Z.of_nat (n - j)) with (file + Z.of_nat n) by lia.
      apply Hat. exact Hterm.
    - intros k Hk.
      replace (file + Z.of_nat j + k) with (file + (Z.of_nat j + k)) by lia.
      apply Hbefore. lia. }
  (* the fields of the code *)
  assert (merr_errno L err = Z.abs e) as Herrno by (apply (errno_pack L HL); assumption).
  assert (merr_lineno L err = l) as Hline.
  { subst err. rewrite (lineno_pack L HL) by assumption. apply Z.mod_small. exact Hl. }
  assert (Z.land err (MERR_RSVD_MASK L) <> 0) as Hrsvd.
  { destruct (merr_pack_shape L HL E e file l Hne) as (k & Hk & Hpack & _).
    subst err. rewrite Hpack.
    rewrite (fields_rsvd_bit L HL) by apply (errno_field_range L HL).
    rewrite (ok_rsvd_mask L HL).
    assert (0 < 2 ^ MERR_RSVD_SHIFT L) by (apply pow2_pos; lia). lia. }
  (* the prefix *)
  set (pfx := (bytes_at E (file + Z.of_nat j) (n - j) ++ ":" ++ fmt_int l ++ ": ")%string).
  assert (text = (pfx ++ msg)%string) as Htext.
  { subst text pfx. rewrite !str_append_assoc. reflexivity. }
  assert (strlen text = strlen pfx + strlen msg) as Htlen
    by (rewrite Htext; apply strlen_append).
  assert (0 <= strlen msg) by (unfold strlen; lia).
  assert (0 <= strlen pfx) by (unfold strlen; lia).
  assert (merr_strinfo_prefix L E err buf buf_sz = (pfx, strlen pfx)) as Hpfx.
  { unfold merr_strinfo_prefix. fold err in Hfile. rewrite Hfile.
    destruct (Z.eqb_spec (file + Z.of_nat j) NULL) as [Hnull|_];
      [unfold NULL in Hnull; lia|].
    rewrite Hline. unfold location_prefix. rewrite Hstr. fold pfx.
    unfold snprintf.
    destruct (Z.ltb_spec INT_MAX (strlen pfx)); [lia|].
    destruct (Z.eqb_spec buf_sz 0); [lia|].
    rewrite strlen_take_all by lia. reflexivity. }
  unfold INT_MAX in Hint.
  rewrite (strinfo_known L E P msgs HP err msg buf pfx buf_sz (strlen pfx));
    try assumption; try (unfold INT_MAX; lia);
    try (rewrite Herrno; assumption); try (intros Hsmall; lia).
  rewrite (strlen_take_all (strlen pfx) pfx) by lia.
  rewrite (strlen_take_all _ msg) by lia.
  rewrite Htlen, Htext. reflexivity.
Qed.

End EndToEnd.

Lemma demo_path_printable :
  forall idx : nat,
    (1 <= idx < Z.to_nat (strnlen demo_env 0x600140 (Z.to_nat PATH_MAX)))%nat ->
    unprintable (mem demo_env (0x600140 + Z.of_nat idx)) = false.
Proof.
  change (Z.to_nat (strnlen demo_env 0x600140 (Z.to_nat PATH_MAX))) with 33%nat.
  intros idx Hidx.
  do 33 (destruct idx as [|idx]; [try lia; reflexivity|]).
  lia.
Qed.

Lemma merr_file_pack_printable_witness :
  layout_ok hse_layout /\ env_ok hse_layout demo_env
  /\ table_entry hse_layout demo_env 0x600140 1
  /\ exists j : nat,
       merr_file hse_layout demo_env (merr_pack hse_layout demo_env 5 0x600140 10)
       = 0x600140 + Z.of_nat j.
Proof.
  split; [exact hse_layout_ok|]. split; [exact demo_env_ok|].
  split; [exact demo_entry_file|].
  destruct (merr_file_pack_printable hse_layout hse_layout_ok demo_env demo_env_ok
              5 0x600140 1 10 demo_entry_file)
    as (j & _ & Hj & _).
  - discriminate.
  - split; reflexivity.
  - discriminate.
  - vm_compute. discriminate.
  - vm_compute. reflexivity.
  - exact demo_path_printable.
  - exists j. exact Hj.
Defined.

Lemma merr_strinfo_pack_witness :
  layout_ok hse_layout /\ env_ok hse_layout demo_env
  /\ xsi_platform demo_platform demo_msgs
  /\ table_entry hse_layout demo_env 0x600140 1
  /\ demo_msgs (Z.abs 2) = Some "No such file or directory"%string
  /\ exists j : nat,
       forall (buf : string) (buf_sz : Z),
         let text := (bytes_at demo_env (0x600140 + Z.of_nat j)
                        (Z.to_nat (strnlen demo_env 0x600140 (Z.to_nat PATH_MAX)) - j)
                      ++ ":" ++ fmt_int 123 ++ ": " ++ "No such file or directory")%string in
         strlen text < buf_sz -> buf_sz <= INT_MAX ->
         merr_strinfo hse_layout demo_env demo_platform
           (merr_pack hse_layout demo_env 2 0x600140 123) buf buf_sz
         = Some {| out_buf := text; out_need_sz := Some (strlen text + 1) |}.
Proof.
  split; [exact hse_layout_ok|]. split; [exact demo_env_ok|].
  split; [exact demo_platform_xsi|]. split; [exact demo_entry_file|].
  split; [reflexivity|].
  destruct (merr_strinfo_pack hse_layout hse_layout_ok demo_env demo_env_ok
              demo_platform demo_msgs demo_platform_xsi
              2 0x600140 1 123 "No such file or directory" demo_entry_file)
    as (j & _ & _ & Hfmt).
  - discriminate.
  - discriminate.
  - vm_compute. discriminate.
  - vm_compute. discriminate.
  - vm_compute. discriminate.
  - reflexivity.
  - reflexivity.
  - vm_compute. split; [discriminate | reflexivity].
  - vm_compute. reflexivity.
  - exact demo_path_printable.
  - exists j. exact Hfmt.
Defined.
